(** * Track safety simulator ([Python/original script/train.py])

    A shallow embedding of the train proximity simulator and the proofs of
    its specification.

    Numbers.  Python's [int] and [float] values are read as exact rationals
    ([Q]); the literal [0.01] is [1/100].  A [datetime] is the number of
    microseconds since 1900-01-01 00:00:00, the date [strptime] gives to a
    string that carries a time of day only; a [timedelta] is a number of
    microseconds.  Both keep the resolution and the range of the library:
    [timedelta(hours=h)] rounds to the nearest microsecond, ties to even,
    and arithmetic that leaves the range raises [OverflowError].

    Strings are sequences of one-byte characters; the digits that
    [strptime] reads are the ASCII ones.

    Effects.  The script's module-level variables form a [store]; every
    statement is a function from stores to a result and a store, and
    [print] appends to the [stdout] component.  A printed warning is kept as
    the record of the values that the message interpolates.

    The converter [Python/Convert/convert.py] shares nothing with the
    simulator and is not modelled. *)

From Stdlib Require Import ZArith QArith Qabs List Sorted String Ascii Bool Lia Lqa.
Import ListNotations.

Open Scope Z_scope.

(** ** Exceptions and results *)

Inductive exn : Type :=
| ValueError
| ZeroDivisionError
| OverflowError
| KeyError
| IndexError.

Inductive result (A : Type) : Type :=
| Ok (a : A)
| Raise (e : exn).

Arguments Ok {A} a.
Arguments Raise {A} e.

Definition rbind {A B : Type} (r : result A) (k : A -> result B) : result B :=
  match r with
  | Ok a => k a
  | Raise e => Raise e
  end.

Declare Scope result_scope.
Delimit Scope result_scope with result.
Notation "x <~ c ;; k" := (rbind c (fun x => k))
  (at level 61, c at next level, right associativity) : result_scope.

(** ** Rational comparisons *)

Definition Qltb (x y : Q) : bool :=
  Qnum x * Zpos (Qden y) <? Qnum y * Zpos (Qden x).

(** ** The [datetime] library, as far as the script uses it *)

Module Datetime.

Definition US_PER_SECOND : Z := 1000000.
Definition US_PER_MINUTE : Z := 60000000.
Definition US_PER_HOUR : Z := 3600000000.
Definition US_PER_DAY : Z := 86400000000.

(** [datetime.min] is 0001-01-01 00:00:00, 693595 days before 1900-01-01;
    [datetime.max] is 9999-12-31 23:59:59.999999. *)
Definition MIN : Z := - (693595 * US_PER_DAY).
Definition MAX : Z := 2958464 * US_PER_DAY - 1.

(** A [timedelta] holds between -999999999 and 999999999 days. *)
Definition TD_MAX_DAYS : Z := 999999999.

Definition in_range (dt : Z) : bool := (MIN <=? dt) && (dt <=? MAX).

Definition td_in_range (us : Z) : bool :=
  (- TD_MAX_DAYS <=? us / US_PER_DAY) && (us / US_PER_DAY <=? TD_MAX_DAYS).

(** Rounding to the nearest integer, ties to the even one. *)
Definition round_half_even (q : Q) : Z :=
  let n := Qnum q in
  let d := Zpos (Qden q) in
  let fl := n / d in
  match 2 * (n mod d) ?= d with
  | Lt => fl
  | Gt => fl + 1
  | Eq => if Z.even fl then fl else fl + 1
  end.

(** [timedelta(hours=h)] *)
Definition timedelta_hours (h : Q) : result Z :=
  let us := round_half_even (h * inject_Z US_PER_HOUR) in
  if td_in_range us then Ok us else Raise OverflowError.

(** [timedelta(minutes=m)] for an integer [m] *)
Definition timedelta_minutes (m : Z) : result Z :=
  let us := m * US_PER_MINUTE in
  if td_in_range us then Ok us else Raise OverflowError.

(** [dt + td] *)
Definition add (dt td : Z) : result Z :=
  if in_range (dt + td) then Ok (dt + td) else Raise OverflowError.

(** [td.total_seconds()] *)
Definition total_seconds (td : Z) : Q := inject_Z td / inject_Z US_PER_SECOND.

(** *** [datetime.strptime(s, "%H:%M")]

    [strptime] turns the format into the regular expression
    [(?P<H>2[0-3]|[0-1]\d|\d):(?P<M>[0-5]\d|\d)], matches it at the start
    of the string and refuses a match that leaves characters over. The
    alternatives are tried from left to right, with backtracking. *)

Definition is_digit (c : ascii) : bool :=
  let n := Z.of_nat (nat_of_ascii c) in (48 <=? n) && (n <=? 57).

Definition digit (c : ascii) : Z := Z.of_nat (nat_of_ascii c) - 48.

Definition in_digits (lo hi : Z) (c : ascii) : bool :=
  is_digit c && (lo <=? digit c) && (digit c <=? hi).

(** The matches of [2[0-3]|[0-1]\d|\d] at the head of [s], in order. *)
Definition match_H (s : list ascii) : list (Z * list ascii) :=
  (match s with
   | c1 :: c2 :: r =>
       if in_digits 2 2 c1 && in_digits 0 3 c2 then [(20 + digit c2, r)] else []
   | _ => []
   end) ++
  (match s with
   | c1 :: c2 :: r =>
       if in_digits 0 1 c1 && is_digit c2 then [(10 * digit c1 + digit c2, r)] else []
   | _ => []
   end) ++
  (match s with
   | c1 :: r => if is_digit c1 then [(digit c1, r)] else []
   | _ => []
   end).

(** The matches of [[0-5]\d|\d] at the head of [s], in order. *)
Definition match_M (s : list ascii) : list (Z * list ascii) :=
  (match s with
   | c1 :: c2 :: r =>
       if in_digits 0 5 c1 && is_digit c2 then [(10 * digit c1 + digit c2, r)] else []
   | _ => []
   end) ++
  (match s with
   | c1 :: r => if is_digit c1 then [(digit c1, r)] else []
   | _ => []
   end).

Definition match_colon (s : list ascii) : list (list ascii) :=
  match s with
  | c :: r => if Ascii.eqb c ":"%char then [r] else []
  | [] => []
  end.

(** All matches of the whole expression, in the order the matcher
    explores them; [re.match] returns the first. *)
Definition match_HM (s : list ascii) : list (Z * Z * list ascii) :=
  flat_map (fun hr : Z * list ascii =>
    flat_map (fun r1 : list ascii =>
      map (fun mr : Z * list ascii => (fst hr, fst mr, snd mr)) (match_M r1))
      (match_colon (snd hr)))
    (match_H s).

Definition strptime_HM (s : string) : result Z :=
  match match_HM (list_ascii_of_string s) with
  | (h, m, []) :: _ => Ok (h * US_PER_HOUR + m * US_PER_MINUTE)
  | _ => Raise ValueError
  end.

(** *** [dt.strftime("%H:%M")]

    The epoch is a midnight, so the hour and the minute of [dt] are those of
    its microsecond count; both are printed with two digits. *)

Definition hour (dt : Z) : Z := (dt / US_PER_HOUR) mod 24.

Definition minute (dt : Z) : Z := (dt / US_PER_MINUTE) mod 60.

Definition two_digits (n : Z) : string :=
  String (ascii_of_nat (Z.to_nat (48 + n / 10)))
    (String (ascii_of_nat (Z.to_nat (48 + n mod 10))) EmptyString).

Definition strftime_HM (dt : Z) : string :=
  (two_digits (hour dt) ++ ":" ++ two_digits (minute dt))%string.

End Datetime.

(** ** Trains *)

(** An entry of [trains] as the list literal writes it. *)
Module Raw.
Record t : Type := mk {
  name : string;
  departure : string;
  speed : Q;
  distance : Q;
  cars : Q;
  car_length : Q
}.
End Raw.

(** An entry of [trains] once the setup loop has added its three keys. *)
Module Train.
Record t : Type := mk {
  name : string;
  departure : string;
  speed : Q;
  distance : Q;
  cars : Q;
  car_length : Q;
  departure_time : Z;
  arrival_time : Z;
  length : Q
}.
End Train.

(** The body of the setup loop (lines 18-21) for one train. *)
Definition setup_train (d : Raw.t) : result Train.t :=
  (dep <~ Datetime.strptime_HM (Raw.departure d) ;;
   hours <~ (if Qeq_bool (Raw.speed d) 0 then Raise ZeroDivisionError
             else Ok (Raw.distance d / Raw.speed d)%Q) ;;
   td <~ Datetime.timedelta_hours hours ;;
   arr <~ Datetime.add dep td ;;
   Ok (Train.mk (Raw.name d) (Raw.departure d) (Raw.speed d) (Raw.distance d)
         (Raw.cars d) (Raw.car_length d) dep arr
         (Raw.cars d * Raw.car_length d / 1000)%Q))%result.

Fixpoint setup_trains (ds : list Raw.t) : result (list Train.t) :=
  match ds with
  | [] => Ok []
  | d :: ds' =>
      (t <~ setup_train d ;;
       ts <~ setup_trains ds' ;;
       Ok (t :: ts))%result
  end.

(** [min] and [max] of a generator: [ValueError] on an empty one. *)
Definition py_min (l : list Z) : result Z :=
  match l with
  | [] => Raise ValueError
  | x :: r => Ok (fold_left Z.min r x)
  end.

Definition py_max (l : list Z) : result Z :=
  match l with
  | [] => Raise ValueError
  | x :: r => Ok (fold_left Z.max r x)
  end.

(** ** The store and its monad *)

(** A line of the warning message: the tick's [current_time] (printed as
    %H:%M), the two names and [gap] (printed in metres, [gap*1000], with one
    decimal). *)
Record warning : Type := mkWarning {
  w_time : Z;
  w_t1 : string;
  w_t2 : string;
  w_gap : Q
}.

Inductive line : Type :=
| Banner              (* "Simulating train movements with crossing points..." *)
| Warning (w : warning)
| Complete.           (* "Simulation complete." *)

(** [positions] is a [dict]: keys keep the order of their first insertion. *)
Definition dict : Type := list (string * Q).

Record store : Type := mkStore {
  trains : list Train.t;
  current_time : Z;
  end_time : Z;
  positions : dict;
  stdout : list line
}.

Definition M (A : Type) : Type := store -> result A * store.

Definition ret {A : Type} (a : A) : M A := fun s => (Ok a, s).

Definition raise {A : Type} (e : exn) : M A := fun s => (Raise e, s).

Definition bind {A B : Type} (m : M A) (k : A -> M B) : M B :=
  fun s =>
    match m s with
    | (Ok a, s') => k a s'
    | (Raise e, s') => (Raise e, s')
    end.

Definition lift {A : Type} (r : result A) : M A := fun s => (r, s).

Definition get {A : Type} (f : store -> A) : M A := fun s => (Ok (f s), s).

Declare Scope sim_scope.
Delimit Scope sim_scope with sim.
Notation "x <- c ;; k" := (bind c (fun x => k))
  (at level 61, c at next level, right associativity) : sim_scope.
Notation "c ;; k" := (bind c (fun _ => k))
  (at level 61, right associativity) : sim_scope.

Definition set_current_time (t : Z) : M unit :=
  fun s => (Ok tt, mkStore (trains s) t (end_time s) (positions s) (stdout s)).

Definition set_positions (d : dict) : M unit :=
  fun s => (Ok tt, mkStore (trains s) (current_time s) (end_time s) d (stdout s)).

Definition print (l : line) : M unit :=
  fun s => (Ok tt, mkStore (trains s) (current_time s) (end_time s) (positions s)
                     (stdout s ++ [l])).

Fixpoint for_each {A : Type} (l : list A) (body : A -> M unit) : M unit :=
  match l with
  | [] => ret tt
  | x :: r => (body x ;; for_each r body)%sim
  end.

(** [range(a, b)] *)
Definition range (a b : nat) : list nat := seq a (b - a).

(** [l[i]] for [0 <= i] *)
Definition index {A : Type} (l : list A) (i : nat) : M A :=
  match nth_error l i with
  | Some x => ret x
  | None => raise IndexError
  end.

(** [d[k] = v] *)
Fixpoint dict_set (k : string) (v : Q) (d : dict) : dict :=
  match d with
  | [] => [(k, v)]
  | (k', v') :: r =>
      if String.eqb k k' then (k', v) :: r else (k', v') :: dict_set k v r
  end.

(** [d[k]] *)
Fixpoint dict_get (k : string) (d : dict) : option Q :=
  match d with
  | [] => None
  | (k', v) :: r => if String.eqb k k' then Some v else dict_get k r
  end.

Definition lookup (k : string) : M Q :=
  fun s =>
    match dict_get k (positions s) with
    | Some v => (Ok v, s)
    | None => (Raise KeyError, s)
    end.

(** ** The simulation *)

Section Simulator.

Variable SAFE_DISTANCE : Q.
Variable CROSSINGS : list Q.
Variable step : Z.

Local Open Scope sim_scope.

(** Lines 33-37: the body of the loop that fills [positions]. *)
Definition record_position (train : Train.t) : M unit :=
  now <- get current_time ;;
  if (Train.departure_time train <=? now) && (now <=? Train.arrival_time train)
  then
    let time_elapsed :=
      (Datetime.total_seconds (now - Train.departure_time train) / 3600)%Q in
    let distance_traveled := (Train.speed train * time_elapsed)%Q in
    ps <- get positions ;;
    set_positions (dict_set (Train.name train) distance_traveled ps)
  else ret tt.

Definition gap_of (p1 p2 l1 l2 : Q) : Q := (Qabs (p1 - p2) - (l1 + l2))%Q.

Definition near_crossing (p1 p2 : Q) : bool :=
  existsb (fun c => Qltb (Qabs (p1 - c)) (1 # 100) && Qltb (Qabs (p2 - c)) (1 # 100))
    CROSSINGS.

(** Lines 43-46: the names of the pair and its gap. *)
Definition compute_gap (train_names : list string) (i j : nat)
  : M (string * string * Q) :=
  t1 <- index train_names i ;;
  t2 <- index train_names j ;;
  p1 <- lookup t1 ;;
  p2 <- lookup t2 ;;
  ts <- get trains ;;
  ti <- index ts i ;;
  tj <- index ts j ;;
  ret (t1, t2, gap_of p1 p2 (Train.length ti) (Train.length tj)).

Definition warns (gap : Q) (near : bool) : bool :=
  Qltb (gap * 1000) SAFE_DISTANCE && negb near.

(** Lines 43-52: the body of the loops over [i] and [j]. *)
Definition check_pair (train_names : list string) (i j : nat) : M unit :=
  g <- compute_gap train_names i j ;;
  let '(t1, t2, gap) := g in
  p1 <- lookup t1 ;;
  p2 <- lookup t2 ;;
  if warns gap (near_crossing p1 p2)
  then
    now <- get current_time ;;
    print (Warning (mkWarning now t1 t2 gap))
  else ret tt.

(** Lines 40-52. *)
Definition check_collisions : M unit :=
  ps <- get positions ;;
  let train_names := map fst ps in
  for_each (range 0 (List.length train_names)) (fun i =>
    for_each (range (i + 1) (List.length train_names)) (fun j =>
      check_pair train_names i j)).

(** Line 54. *)
Definition advance : M unit :=
  now <- get current_time ;;
  next <- lift (Datetime.add now step) ;;
  set_current_time next.

(** Lines 31-54: the body of the [while] loop. *)
Definition tick : M unit :=
  set_positions [] ;;
  ts <- get trains ;;
  for_each ts record_position ;;
  check_collisions ;;
  advance.

(** Lines 30-54.  [None] when the fuel runs out before the loop ends. *)
Fixpoint while_loop (fuel : nat) (s : store) : option (result unit * store) :=
  match fuel with
  | O => None
  | S fuel' =>
      if current_time s <=? end_time s then
        match tick s with
        | (Ok _, s') => while_loop fuel' s'
        | (Raise e, s') => Some (Raise e, s')
        end
      else Some (Ok tt, s)
  end.

(** An upper bound of the number of iterations still to run. *)
Definition ticks_left (s : store) : nat :=
  Z.to_nat ((end_time s - current_time s) / step + 1).

Definition run_loop (s : store) : option (result unit * store) :=
  while_loop (S (ticks_left s)) s.

End Simulator.

(** Lines 18-26: the setup, up to the first [print]. *)
Definition setup (ds : list Raw.t) : result store :=
  (ts <~ setup_trains ds ;;
   start <~ py_min (map Train.departure_time ts) ;;
   stop <~ py_max (map Train.arrival_time ts) ;;
   Ok (mkStore ts start stop [] []))%result.

(** The whole script, on the list [ds] of trains. *)
Definition script (SAFE_DISTANCE : Q) (CROSSINGS : list Q) (ds : list Raw.t)
  : option (result unit * list line) :=
  match setup ds with
  | Raise e => Some (Raise e, [])
  | Ok s0 =>
      match Datetime.timedelta_minutes 1 with
      | Raise e => Some (Raise e, [])
      | Ok step =>
          match run_loop SAFE_DISTANCE CROSSINGS step (snd (print Banner s0)) with
          | None => None
          | Some (Ok _, s) => Some (Ok tt, stdout (snd (print Complete s)))
          | Some (Raise e, s) => Some (Raise e, stdout s)
          end
      end
  end.

(** The data of the script. *)
Definition the_trains : list Raw.t :=
  [ Raw.mk "A" "08:00" 80 240 8 20;
    Raw.mk "B" "08:30" 60 240 10 25;
    Raw.mk "C" "09:00" 100 240 6 18;
    Raw.mk "D" "09:15" 90 240 12 22 ].

Definition the_SAFE_DISTANCE : Q := 100.
Definition the_CROSSINGS : list Q := [60%Q; 120%Q; 180%Q; 220%Q].
Definition the_step : Z := 60000000.


(** ** What a tick computes, as functions of the store's components

    These are not part of the script: they name the values that the
    statements above produce, and the theorems below relate the two. *)

Definition active (now : Z) (t : Train.t) : bool :=
  (Train.departure_time t <=? now) && (now <=? Train.arrival_time t).

Definition position_at (now : Z) (t : Train.t) : Q :=
  (Train.speed t * (Datetime.total_seconds (now - Train.departure_time t) / 3600))%Q.

Definition snapshot_add (now : Z) (d : dict) (t : Train.t) : dict :=
  if active now t then dict_set (Train.name t) (position_at now t) d else d.

Definition snapshot (now : Z) (ts : list Train.t) : dict :=
  fold_left (snapshot_add now) ts [].

Definition with_positions (d : dict) (s : store) : store :=
  mkStore (trains s) (current_time s) (end_time s) d (stdout s).

Definition with_time (t : Z) (s : store) : store :=
  mkStore (trains s) t (end_time s) (positions s) (stdout s).

Definition emit (o : list line) (s : store) : store :=
  mkStore (trains s) (current_time s) (end_time s) (positions s) (stdout s ++ o).

(** The pairs [(i, j)] in the order the two [for] loops visit them. *)
Definition pairs (n : nat) : list (nat * nat) :=
  flat_map (fun i => map (fun j => (i, j)) (range (i + 1) n)) (range 0 n).

Section Views.

Variable SAFE_DISTANCE : Q.
Variable CROSSINGS : list Q.

(** What the pair [(i, j)] prints when [trains] is [ts], [positions] is [ps]
    and [current_time] is [now]. *)
Definition pair_line (ts : list Train.t) (ps : dict) (now : Z) (i j : nat)
  : list line :=
  match nth_error ps i, nth_error ps j, nth_error ts i, nth_error ts j with
  | Some (t1, p1), Some (t2, p2), Some ti, Some tj =>
      let gap := gap_of p1 p2 (Train.length ti) (Train.length tj) in
      if warns SAFE_DISTANCE gap (near_crossing CROSSINGS p1 p2)
      then [Warning (mkWarning now t1 t2 gap)]
      else []
  | _, _, _, _ => []
  end.

(** What a tick prints. *)
Definition tick_lines (ts : list Train.t) (now : Z) : list line :=
  let ps := snapshot now ts in
  flat_map (fun ij => pair_line ts ps now (fst ij) (snd ij))
    (pairs (List.length ps)).

End Views.

(** The [while] loop as a relation: [Loop s l r] when the loop, started in
    [s], evaluates the ticks whose clock values are [l], in this order, and
    ends with [r]. *)
Section LoopRelation.

Variable SAFE_DISTANCE : Q.
Variable CROSSINGS : list Q.
Variable step : Z.

Inductive Loop : store -> list Z -> result unit * store -> Prop :=
| Loop_exit s :
    end_time s < current_time s ->
    Loop s [] (Ok tt, s)
| Loop_tick s s' u l r :
    current_time s <= end_time s ->
    tick SAFE_DISTANCE CROSSINGS step s = (Ok u, s') ->
    Loop s' l r ->
    Loop s (current_time s :: l) r
| Loop_raise s s' e :
    current_time s <= end_time s ->
    tick SAFE_DISTANCE CROSSINGS step s = (Raise e, s') ->
    Loop s [current_time s] (Raise e, s').

End LoopRelation.

(** [n] iterations of the loop body, whatever the loop test says. *)
Fixpoint ticks (SAFE_DISTANCE : Q) (CROSSINGS : list Q) (step : Z) (n : nat)
  (s : store) : store :=
  match n with
  | O => s
  | S n' =>
      ticks SAFE_DISTANCE CROSSINGS step n'
        (snd (tick SAFE_DISTANCE CROSSINGS step s))
  end.

(** The clock values of [n] ticks from [start]. *)
Fixpoint clock_values (start step : Z) (n : nat) : list Z :=
  match n with
  | O => []
  | S n' => start :: clock_values (start + step) step n'
  end.

(** The order of the pairs: by [i], then by [j]. *)
Definition pair_lt (a b : nat * nat) : Prop :=
  (fst a < fst b)%nat \/ (fst a = fst b /\ (snd a < snd b)%nat).

(** The trains that the setup loop takes without raising. *)
Definition accepted (d : Raw.t) : Prop :=
  exists dep,
    Datetime.strptime_HM (Raw.departure d) = Ok dep /\
    ~ (Raw.speed d == 0)%Q /\
    let td := Datetime.round_half_even
                (Raw.distance d / Raw.speed d * inject_Z Datetime.US_PER_HOUR) in
    Datetime.td_in_range td = true /\ Datetime.in_range (dep + td) = true.

(** The store that the setup leaves for the script's own trains. *)
Definition the_store : store :=
  Eval vm_compute in
    match setup the_trains with
    | Ok s => s
    | Raise _ => mkStore [] 0 0 [] []
    end.

(** A train whose journey, 59999999.75 microseconds, rounds up to a minute. *)
Definition fast_train : Raw.t :=
  Raw.mk "X" "00:00" 14400 (239999999 # 1000000) 1 20.

(** The store after the tick of 09:45, the 106th, of the script's own run:
    [positions] is the snapshot of that tick. *)
Definition store_0945 : store :=
  Eval vm_compute in ticks the_SAFE_DISTANCE the_CROSSINGS the_step 106 the_store.

(** The store after the tick of 11:01, the 182nd. *)
Definition store_1101 : store :=
  Eval vm_compute in ticks the_SAFE_DISTANCE the_CROSSINGS the_step 182 the_store.

(** Two stores that agree on all that the loop test and the clock read. *)
Definition same_control (s s' : store) : Prop :=
  trains s = trains s' /\ current_time s = current_time s' /\
  end_time s = end_time s'.

(** The time that the message of a warning shows (line 51). *)
Definition warning_clock (w : warning) : string :=
  Datetime.strftime_HM (w_time w).


(** The stores of the run of [fast_train] alone: after the setup, after the
    tick of 00:00 and after the tick of 00:01. *)
Definition fast_store : store :=
  Eval vm_compute in
    match setup [fast_train] with
    | Ok s => s
    | Raise _ => mkStore [] 0 0 [] []
    end.

Definition fast_store_1 : store :=
  Eval vm_compute in
    snd (tick the_SAFE_DISTANCE the_CROSSINGS the_step fast_store).

Definition fast_store_2 : store :=
  Eval vm_compute in
    snd (tick the_SAFE_DISTANCE the_CROSSINGS the_step fast_store_1).

(** The store at the start of the tick of 09:45 of the script's own run,
    when its four trains are active. *)
Definition store_at_0945 : store :=
  Eval vm_compute in ticks the_SAFE_DISTANCE the_CROSSINGS the_step 105 the_store.

(** The script's trains with a clock that has the tick of 09:45 as its only
    one, before and after that tick. *)
Definition store_only_0945 : store :=
  mkStore (trains the_store) 35100000000 35100000000 [] [].

Definition store_only_0945_after : store :=
  Eval vm_compute in
    snd (tick the_SAFE_DISTANCE the_CROSSINGS the_step store_only_0945).

(** Does [strptime] read the two-digit form of [h]:[m] as that time? *)
Definition reads_back (h m : nat) : bool :=
  match Datetime.strptime_HM
          (Datetime.two_digits (Z.of_nat h) ++ ":"
           ++ Datetime.two_digits (Z.of_nat m))%string with
  | Ok v => v =? Z.of_nat h * Datetime.US_PER_HOUR
                 + Z.of_nat m * Datetime.US_PER_MINUTE
  | Raise _ => false
  end.

(** * The converter ([Python/Convert/convert.py])

    The geometries come from the geospatial libraries; of a geometry the
    script uses its kind, the coordinates of a line, [x] and [y] of a point,
    and the predicates [crosses] and [intersection], which stay parameters.
    Coordinates are pairs; a division by an extent of zero is not a number
    of exact arithmetic and is left out of the theorems by hypothesis. *)

Module Convert.

Inductive geometry : Type :=
| Point (x y : Q)
| LineString (coords : list (Q * Q))
| Other.                (* MultiLineString, MultiPoint, collections *)

Inductive element : Type :=
| Polyline (points : list (Q * Q))     (* stroke black, no fill, width 1 *)
| Circle (center : Q * Q) (r : Q).     (* fill red *)

(** What the drawing of the crossings gives: its value, or the
    [AttributeError] of a geometry without [x] and [y]. *)
Inductive outcome (A : Type) : Type :=
| Done (a : A)
| AttributeError.

Arguments Done {A} a.
Arguments AttributeError {A}.

(** [enumerate(l)] *)
Definition enumerate {A : Type} (l : list A) : list (nat * A) :=
  combine (seq 0 (List.length l)) l.

Definition width : Q := 2000.
Definition height : Q := 1200.

Section Converter.

Variable crosses : geometry -> geometry -> bool.
Variable intersection : geometry -> geometry -> geometry.

(** Lines 13-19, on the list [rail_gdf.geometry]. *)
Definition find_crossings (rail_gdf : list geometry) : list geometry :=
  flat_map (fun il1 : nat * geometry =>
    flat_map (fun jl2 : nat * geometry =>
      if (fst jl2 <=? fst il1)%nat then []
      else if crosses (snd il1) (snd jl2)
           then [intersection (snd il1) (snd jl2)]
           else [])
      (enumerate rail_gdf))
    (enumerate rail_gdf).

(** What the pair of the lines at [i] and [j] adds to [crossings]. *)
Definition crossing_of (rail_gdf : list geometry) (ij : nat * nat)
  : list geometry :=
  let l1 := nth (fst ij) rail_gdf Other in
  let l2 := nth (snd ij) rail_gdf Other in
  if crosses l1 l2 then [intersection l1 l2] else [].

(** [rail_gdf.total_bounds] *)
Variables minx miny maxx maxy : Q.

Definition scale_x : Q := (width / (maxx - minx))%Q.
Definition scale_y : Q := (height / (maxy - miny))%Q.

(** Lines 28-31. *)
Definition project (pt : Q * Q) : Q * Q :=
  let '(x, y) := pt in
  ((x - minx) * scale_x, height - (y - miny) * scale_y)%Q.

(** Lines 34-37. *)
Definition draw_lines (rail_gdf : list geometry) : list element :=
  flat_map (fun line =>
    match line with
    | LineString coords => [Polyline (map project coords)]
    | _ => []
    end) rail_gdf.

(** [(cross.x, cross.y)]: only a point has these attributes. *)
Definition xy (cross : geometry) : outcome (Q * Q) :=
  match cross with
  | Point x y => Done (x, y)
  | _ => AttributeError
  end.

(** Lines 40-42. *)
Fixpoint draw_crossings (crossings : list geometry) : outcome (list element) :=
  match crossings with
  | [] => Done []
  | cross :: rest =>
      match xy cross with
      | AttributeError => AttributeError
      | Done c =>
          match draw_crossings rest with
          | AttributeError => AttributeError
          | Done es => Done (Circle (project c) 5 :: es)
          end
      end
  end.

(** Lines 13-46, after the file is read: the elements of the drawing that is
    saved and the number that the last line prints. *)
Definition convert (rail_gdf : list geometry) : outcome (list element * nat) :=
  let crossings := find_crossings rail_gdf in
  match draw_crossings crossings with
  | AttributeError => AttributeError
  | Done circles => Done (draw_lines rail_gdf ++ circles, List.length crossings)
  end.

End Converter.

End Convert.

(** * Proofs *)

(** ** Rationals *)

Lemma Qltb_lt (x y : Q) : Qltb x y = true <-> (x < y)%Q.
Proof. unfold Qltb, Qlt. apply Z.ltb_lt. Qed.

Lemma Qltb_ge (x y : Q) : Qltb x y = false <-> (y <= x)%Q.
Proof. unfold Qltb, Qle. rewrite Z.ltb_ge. reflexivity. Qed.

(** ** Dictionaries *)

Lemma dict_get_set_same k v d : dict_get k (dict_set k v d) = Some v.
Proof.
  induction d as [|[k' v'] d IH]; simpl.
  - now rewrite String.eqb_refl.
  - destruct (String.eqb k k') eqn:E; simpl; rewrite E; auto.
Qed.

Lemma dict_get_set_other k k' v d :
  k <> k' -> dict_get k' (dict_set k v d) = dict_get k' d.
Proof.
  intros Hne. induction d as [|[k0 v0] d IH]; simpl.
  - destruct (String.eqb k' k) eqn:E; auto.
    apply String.eqb_eq in E. congruence.
  - destruct (String.eqb k k0) eqn:E; simpl.
    + apply String.eqb_eq in E. subst k0.
      destruct (String.eqb k' k) eqn:E'; auto.
      apply String.eqb_eq in E'. congruence.
    + now rewrite IH.
Qed.

Lemma dict_set_keys k v d :
  map fst (dict_set k v d) =
  if existsb (String.eqb k) (map fst d) then map fst d else map fst d ++ [k].
Proof.
  induction d as [|[k' v'] d IH]; simpl; auto.
  destruct (String.eqb k k') eqn:E; simpl; auto.
  rewrite IH. now destruct (existsb _ _).
Qed.

Lemma existsb_eqb_In k l : existsb (String.eqb k) l = true <-> In k l.
Proof.
  rewrite existsb_exists. split.
  - intros [x [Hx E]]. apply String.eqb_eq in E. now subst.
  - intros H. exists k. split; auto. apply String.eqb_refl.
Qed.

Lemma dict_set_length k v d :
  (List.length (dict_set k v d) <= S (List.length d))%nat.
Proof.
  induction d as [|[k' v'] d IH]; simpl; auto.
  destruct (String.eqb k k'); simpl; lia.
Qed.

Lemma dict_set_NoDup k v d :
  NoDup (map fst d) -> NoDup (map fst (dict_set k v d)).
Proof.
  intros H. rewrite dict_set_keys.
  destruct (existsb (String.eqb k) (map fst d)) eqn:E; auto.
  apply NoDup_app; auto.
  - repeat constructor. intros [].
  - intros x Hx [Hk|[]]. subst x.
    apply existsb_eqb_In in Hx. congruence.
Qed.

Lemma dict_get_In k d : In k (map fst d) -> exists v, dict_get k d = Some v.
Proof.
  induction d as [|[k' v'] d IH]; simpl; [intros []|].
  intros H. destruct (String.eqb k k') eqn:E; eauto.
  destruct H as [H|H]; auto.
  subst k'. now rewrite String.eqb_refl in E.
Qed.

Lemma dict_get_nth d i k v :
  NoDup (map fst d) -> nth_error d i = Some (k, v) -> dict_get k d = Some v.
Proof.
  revert i. induction d as [|[k' v'] d IH]; intros i Hnd Hi.
  - destruct i; discriminate.
  - inversion Hnd as [|? ? Hnotin Hnd']; subst.
    destruct i; simpl in *.
    + inversion Hi; subst. now rewrite String.eqb_refl.
    + destruct (String.eqb k k') eqn:E.
      * apply String.eqb_eq in E. subst k'. exfalso. apply Hnotin.
        apply nth_error_In in Hi. now apply (in_map fst) in Hi.
      * eauto.
Qed.

(** ** Stores *)

Lemma with_positions_same s : with_positions (positions s) s = s.
Proof. now destruct s. Qed.

Lemma emit_nil s : emit [] s = s.
Proof. destruct s. unfold emit. simpl. now rewrite app_nil_r. Qed.

Lemma emit_emit o1 o2 s : emit o2 (emit o1 s) = emit (o1 ++ o2) s.
Proof. unfold emit. simpl. now rewrite app_assoc. Qed.

Lemma for_each_emit {A : Type} (l : list A) (body : A -> M unit)
  (f : A -> list line) (s : store) :
  (forall x o, In x l -> body x (emit o s) = (Ok tt, emit (o ++ f x) s)) ->
  forall o, for_each l body (emit o s) = (Ok tt, emit (o ++ flat_map f l) s).
Proof.
  induction l as [|x l IH]; intros Hbody o; simpl.
  - unfold ret. now rewrite app_nil_r.
  - unfold bind. rewrite Hbody by now left.
    rewrite IH by (intros; apply Hbody; now right).
    now rewrite app_assoc.
Qed.

Lemma flat_map_map {A B C : Type} (f : B -> list C) (g : A -> B) (l : list A) :
  flat_map f (map g l) = flat_map (fun x => f (g x)) l.
Proof. induction l; simpl; congruence. Qed.

Lemma flat_map_flat_map {A B C : Type} (f : B -> list C) (g : A -> list B)
  (l : list A) :
  flat_map f (flat_map g l) = flat_map (fun x => flat_map f (g x)) l.
Proof.
  induction l; simpl; auto. rewrite flat_map_app. congruence.
Qed.

(** ** The snapshot *)

Lemma record_position_spec t s :
  record_position t s =
  (Ok tt, with_positions (snapshot_add (current_time s) (positions s) t) s).
Proof.
  unfold record_position, snapshot_add, active, position_at, bind, get.
  destruct (_ && _); [reflexivity|].
  unfold ret. now rewrite with_positions_same.
Qed.

Lemma fill_positions_spec ts : forall s,
  for_each ts record_position s =
  (Ok tt, with_positions
            (fold_left (snapshot_add (current_time s)) ts (positions s)) s).
Proof.
  induction ts as [|t ts IH]; intros s; simpl.
  - unfold ret. now rewrite with_positions_same.
  - unfold bind. rewrite record_position_spec, IH. reflexivity.
Qed.

Lemma snapshot_add_NoDup now d t :
  NoDup (map fst d) -> NoDup (map fst (snapshot_add now d t)).
Proof.
  unfold snapshot_add. destruct (active now t); auto using dict_set_NoDup.
Qed.

Lemma fold_snapshot_NoDup now ts : forall d,
  NoDup (map fst d) -> NoDup (map fst (fold_left (snapshot_add now) ts d)).
Proof.
  induction ts; simpl; auto using snapshot_add_NoDup.
Qed.

Lemma snapshot_NoDup now ts : NoDup (map fst (snapshot now ts)).
Proof. apply fold_snapshot_NoDup. constructor. Qed.

Lemma fold_snapshot_length now ts : forall d,
  (List.length (fold_left (snapshot_add now) ts d)
   <= List.length d + List.length ts)%nat.
Proof.
  induction ts as [|t ts IH]; intros d; simpl; [lia|].
  specialize (IH (snapshot_add now d t)).
  assert (List.length (snapshot_add now d t) <= S (List.length d))%nat.
  { unfold snapshot_add. destruct (active now t); auto using dict_set_length. }
  lia.
Qed.

Lemma snapshot_length now ts :
  (List.length (snapshot now ts) <= List.length ts)%nat.
Proof. apply (fold_snapshot_length now ts []). Qed.

(** ** The pair loops *)

Section Tick.

Variable SAFE_DISTANCE : Q.
Variable CROSSINGS : list Q.
Variable step : Z.

Lemma compute_gap_spec names i j s t1 t2 p1 p2 ti tj :
  nth_error names i = Some t1 ->
  nth_error names j = Some t2 ->
  dict_get t1 (positions s) = Some p1 ->
  dict_get t2 (positions s) = Some p2 ->
  nth_error (trains s) i = Some ti ->
  nth_error (trains s) j = Some tj ->
  compute_gap names i j s =
  (Ok (t1, t2, gap_of p1 p2 (Train.length ti) (Train.length tj)), s).
Proof.
  intros H1 H2 H3 H4 H5 H6.
  unfold compute_gap, bind, index, lookup, get, ret.
  now rewrite H1, H2, H3, H4, H5, H6.
Qed.

Lemma check_pair_spec s i j :
  NoDup (map fst (positions s)) ->
  (List.length (positions s) <= List.length (trains s))%nat ->
  (i < List.length (positions s))%nat ->
  (j < List.length (positions s))%nat ->
  check_pair SAFE_DISTANCE CROSSINGS (map fst (positions s)) i j s =
  (Ok tt, emit (pair_line SAFE_DISTANCE CROSSINGS (trains s) (positions s)
                  (current_time s) i j) s).
Proof.
  intros Hnd Hlen Hi Hj.
  destruct (nth_error (positions s) i) as [[t1 p1]|] eqn:Ei;
    [|apply nth_error_None in Ei; lia].
  destruct (nth_error (positions s) j) as [[t2 p2]|] eqn:Ej;
    [|apply nth_error_None in Ej; lia].
  destruct (nth_error (trains s) i) as [ti|] eqn:Eti;
    [|apply nth_error_None in Eti; lia].
  destruct (nth_error (trains s) j) as [tj|] eqn:Etj;
    [|apply nth_error_None in Etj; lia].
  pose proof (dict_get_nth _ _ _ _ Hnd Ei) as G1.
  pose proof (dict_get_nth _ _ _ _ Hnd Ej) as G2.
  unfold check_pair, bind.
  rewrite (compute_gap_spec _ i j s t1 t2 p1 p2 ti tj);
    auto using map_nth_error.
  - unfold lookup, pair_line. rewrite G1, G2, Ei, Ej, Eti, Etj.
    destruct (warns _ _ _); [reflexivity|].
    unfold ret. now rewrite emit_nil.
  - now rewrite (map_nth_error fst i _ Ei).
  - now rewrite (map_nth_error fst j _ Ej).
Qed.

(** Inside a tick the six subscripts of a pair check are all defined. *)
Lemma compute_gap_defined s i j :
  NoDup (map fst (positions s)) ->
  (List.length (positions s) <= List.length (trains s))%nat ->
  (i < List.length (positions s))%nat ->
  (j < List.length (positions s))%nat ->
  exists t1 t2 p1 p2 ti tj,
    nth_error (positions s) i = Some (t1, p1) /\
    nth_error (positions s) j = Some (t2, p2) /\
    nth_error (trains s) i = Some ti /\
    nth_error (trains s) j = Some tj /\
    dict_get t1 (positions s) = Some p1 /\
    dict_get t2 (positions s) = Some p2 /\
    compute_gap (map fst (positions s)) i j s =
    (Ok (t1, t2, gap_of p1 p2 (Train.length ti) (Train.length tj)), s).
Proof.
  intros Hnd Hlen Hi Hj.
  destruct (nth_error (positions s) i) as [[t1 p1]|] eqn:Ei;
    [|apply nth_error_None in Ei; lia].
  destruct (nth_error (positions s) j) as [[t2 p2]|] eqn:Ej;
    [|apply nth_error_None in Ej; lia].
  destruct (nth_error (trains s) i) as [ti|] eqn:Eti;
    [|apply nth_error_None in Eti; lia].
  destruct (nth_error (trains s) j) as [tj|] eqn:Etj;
    [|apply nth_error_None in Etj; lia].
  pose proof (dict_get_nth _ _ _ _ Hnd Ei) as G1.
  pose proof (dict_get_nth _ _ _ _ Hnd Ej) as G2.
  exists t1, t2, p1, p2, ti, tj. repeat split; auto.
  apply compute_gap_spec; auto.
  - now rewrite (map_nth_error fst i _ Ei).
  - now rewrite (map_nth_error fst j _ Ej).
Qed.

Lemma in_range_lt a b x : In x (range a b) -> (a <= x < b)%nat.
Proof. unfold range. rewrite in_seq. lia. Qed.

Lemma check_collisions_spec s :
  NoDup (map fst (positions s)) ->
  (List.length (positions s) <= List.length (trains s))%nat ->
  check_collisions SAFE_DISTANCE CROSSINGS s =
  (Ok tt,
   emit (flat_map (fun ij => pair_line SAFE_DISTANCE CROSSINGS (trains s)
                               (positions s) (current_time s) (fst ij) (snd ij))
           (pairs (List.length (positions s)))) s).
Proof.
  intros Hnd Hlen.
  unfold check_collisions, bind, get. rewrite length_map.
  set (n := List.length (positions s)).
  set (pl := pair_line SAFE_DISTANCE CROSSINGS (trains s) (positions s)
               (current_time s)).
  rewrite <- (emit_nil s) at 1.
  rewrite (for_each_emit _ _
             (fun i => flat_map (fun j => pl i j) (range (i + 1) n))).
  - simpl. f_equal. f_equal. unfold pairs.
    rewrite flat_map_flat_map. apply flat_map_ext. intros i.
    now rewrite flat_map_map.
  - intros i o Hi. apply in_range_lt in Hi.
    apply for_each_emit. intros j o' Hj. apply in_range_lt in Hj.
    pose proof (check_pair_spec (emit o' s) i j) as H.
    simpl in H. rewrite H by (fold n; auto; lia).
    now rewrite emit_emit.
Qed.

Lemma tick_spec s :
  tick SAFE_DISTANCE CROSSINGS step s =
  let now := current_time s in
  let s1 := emit (tick_lines SAFE_DISTANCE CROSSINGS (trains s) now)
              (with_positions (snapshot now (trains s)) s) in
  match Datetime.add now step with
  | Ok next => (Ok tt, with_time next s1)
  | Raise e => (Raise e, s1)
  end.
Proof.
  unfold tick, bind, get, set_positions at 1.
  rewrite fill_positions_spec. simpl.
  rewrite check_collisions_spec; simpl.
  - unfold advance, bind, get, lift, set_current_time. simpl.
    fold (snapshot (current_time s) (trains s)).
    destruct (Datetime.add _ _); reflexivity.
  - apply snapshot_NoDup.
  - apply snapshot_length.
Qed.

End Tick.

(** ** The loop *)

Section LoopFacts.

Variable SAFE_DISTANCE : Q.
Variable CROSSINGS : list Q.
Variable step : Z.

Local Abbreviation tick := (tick SAFE_DISTANCE CROSSINGS step).
Local Abbreviation while_loop := (while_loop SAFE_DISTANCE CROSSINGS step).
Local Abbreviation Loop := (Loop SAFE_DISTANCE CROSSINGS step).

Lemma add_ok a b c : Datetime.add a b = Ok c -> c = a + b /\ a + b <= Datetime.MAX.
Proof.
  unfold Datetime.add, Datetime.in_range.
  destruct (_ && _) eqn:E; [|discriminate].
  intros H. inversion H. apply andb_prop in E. destruct E as [_ E].
  apply Z.leb_le in E. auto.
Qed.

Lemma add_raise a b e :
  Datetime.add a b = Raise e ->
  e = OverflowError /\ (a + b < Datetime.MIN \/ Datetime.MAX < a + b).
Proof.
  unfold Datetime.add, Datetime.in_range.
  destruct (_ && _) eqn:E; [discriminate|].
  intros H. inversion H. split; auto.
  apply andb_false_iff in E. destruct E as [E|E]; apply Z.leb_gt in E; auto.
Qed.

Lemma tick_trains s : trains (snd (tick s)) = trains s.
Proof. rewrite tick_spec. simpl. now destruct (Datetime.add _ _). Qed.

Lemma tick_end_time s : end_time (snd (tick s)) = end_time s.
Proof. rewrite tick_spec. simpl. now destruct (Datetime.add _ _). Qed.

Lemma tick_positions s :
  positions (snd (tick s)) = snapshot (current_time s) (trains s).
Proof. rewrite tick_spec. simpl. now destruct (Datetime.add _ _). Qed.

Lemma tick_stdout s :
  stdout (snd (tick s)) =
  stdout s ++ tick_lines SAFE_DISTANCE CROSSINGS (trains s) (current_time s).
Proof. rewrite tick_spec. simpl. now destruct (Datetime.add _ _). Qed.

Lemma tick_ok s u s' :
  tick s = (Ok u, s') ->
  current_time s' = current_time s + step /\
  current_time s + step <= Datetime.MAX.
Proof.
  rewrite tick_spec. simpl.
  destruct (Datetime.add _ _) eqn:E; [|discriminate].
  intros H. inversion H. simpl. apply add_ok in E. destruct E. now subst.
Qed.

Lemma tick_raise s e s' :
  tick s = (Raise e, s') ->
  e = OverflowError /\ current_time s' = current_time s /\
  (current_time s + step < Datetime.MIN \/ Datetime.MAX < current_time s + step).
Proof.
  rewrite tick_spec. simpl.
  destruct (Datetime.add _ _) eqn:E; [discriminate|].
  intros H. inversion H. simpl. apply add_raise in E. destruct E. now subst.
Qed.

Lemma while_loop_Loop fuel : forall s r,
  while_loop fuel s = Some r -> exists l, Loop s l r.
Proof.
  induction fuel as [|fuel IH]; intros s r; simpl; [discriminate|].
  destruct (current_time s <=? end_time s) eqn:E.
  - apply Z.leb_le in E.
    destruct (tick s) as [[u|e] s'] eqn:T.
    + intros H. destruct (IH _ _ H) as [l Hl].
      exists (current_time s :: l). eapply Loop_tick; eauto.
    + intros H. inversion H. exists [current_time s].
      eapply Loop_raise; eauto.
  - apply Z.leb_gt in E. intros H. inversion H.
    exists []. now constructor.
Qed.

Lemma Loop_while_loop s l r :
  Loop s l r ->
  forall fuel, (List.length l < fuel)%nat -> while_loop fuel s = Some r.
Proof.
  induction 1 as [s Hgt|s s' u l r Hle T _ IH|s s' e Hle T];
    intros fuel Hfuel; (destruct fuel as [|fuel]; [simpl in Hfuel; lia|]);
    simpl.
  - apply Z.leb_gt in Hgt. now rewrite Hgt.
  - apply Z.leb_le in Hle. rewrite Hle, T. apply IH. simpl in Hfuel. lia.
  - apply Z.leb_le in Hle. now rewrite Hle, T.
Qed.

Lemma Loop_deterministic s l r :
  Loop s l r -> forall l' r', Loop s l' r' -> l = l' /\ r = r'.
Proof.
  induction 1 as [s Hgt|s s' u l r Hle T _ IH|s s' e Hle T];
    intros l' r' H'; inversion H'; subst; try lia; try congruence.
  - auto.
  - match goal with
    | T' : tick s = (Ok _, ?s2), L : Loop ?s2 _ _ |- _ =>
        assert (s2 = s') by congruence; subst s2;
        destruct (IH _ _ L); subst; auto
    end.
  - split; congruence.
Qed.

Lemma ticks_left_exit s :
  0 < step -> ticks_left step s = O -> end_time s < current_time s.
Proof.
  unfold ticks_left. intros Hstep H.
  destruct (Z_lt_le_dec (end_time s) (current_time s)) as [|Hle]; auto.
  assert (0 <= (end_time s - current_time s) / step)
    by (apply Z.div_pos; lia).
  lia.
Qed.

Lemma ticks_left_step s s' :
  0 < step -> current_time s <= end_time s ->
  current_time s' = current_time s + step -> end_time s' = end_time s ->
  S (ticks_left step s') = ticks_left step s.
Proof.
  unfold ticks_left. intros Hstep Hle Hc He. rewrite Hc, He.
  replace (end_time s - (current_time s + step))
    with (end_time s - current_time s + (-1) * step) by lia.
  rewrite Z.div_add by lia.
  assert (0 <= (end_time s - current_time s) / step)
    by (apply Z.div_pos; lia).
  lia.
Qed.

Lemma while_loop_total :
  0 < step ->
  forall n s, (ticks_left step s <= n)%nat ->
  exists r, while_loop (S n) s = Some r.
Proof.
  intros Hstep. induction n as [|n IH]; intros s Hn.
  - assert (end_time s < current_time s)
      by (apply ticks_left_exit; auto; lia).
    simpl. apply Z.leb_gt in H. rewrite H. eauto.
  - change (while_loop (S (S n)) s) with
      (if current_time s <=? end_time s
       then match tick s with
            | (Ok _, s') => while_loop (S n) s'
            | (Raise e, s') => Some (Raise e, s')
            end
       else Some (Ok tt, s)).
    destruct (current_time s <=? end_time s) eqn:E; [|eauto].
    apply Z.leb_le in E.
    destruct (tick s) as [[u|e] s'] eqn:T; [|eauto].
    apply IH.
    pose proof (tick_ok _ _ _ T) as [Hc _].
    pose proof (tick_end_time s) as He. rewrite T in He. simpl in He.
    pose proof (ticks_left_step s s' Hstep E Hc He). lia.
Qed.

Lemma run_loop_total s :
  0 < step -> exists r, run_loop SAFE_DISTANCE CROSSINGS step s = Some r.
Proof. intros H. apply while_loop_total; auto. Qed.

End LoopFacts.

(** ** What the loop visits and prints *)

Section LoopTrace.

Variable SAFE_DISTANCE : Q.
Variable CROSSINGS : list Q.
Variable step : Z.

Local Abbreviation tick := (tick SAFE_DISTANCE CROSSINGS step).
Local Abbreviation Loop := (Loop SAFE_DISTANCE CROSSINGS step).
Local Abbreviation tick_lines := (tick_lines SAFE_DISTANCE CROSSINGS).

Lemma Loop_frame s l r :
  Loop s l r ->
  trains (snd r) = trains s /\ end_time (snd r) = end_time s /\
  stdout (snd r) = stdout s ++ flat_map (tick_lines (trains s)) l.
Proof.
  induction 1 as [s Hgt|s s' u l r Hle T _ IH|s s' e Hle T]; simpl.
  - now rewrite app_nil_r.
  - destruct IH as [IH1 [IH2 IH3]].
    pose proof (tick_trains SAFE_DISTANCE CROSSINGS step s) as Ht.
    pose proof (tick_end_time SAFE_DISTANCE CROSSINGS step s) as He.
    pose proof (tick_stdout SAFE_DISTANCE CROSSINGS step s) as Ho.
    rewrite T in Ht, He, Ho. simpl in Ht, He, Ho.
    rewrite IH1, IH2, IH3, Ht, He, Ho.
    repeat split; auto. now rewrite <- app_assoc.
  - pose proof (tick_trains SAFE_DISTANCE CROSSINGS step s) as Ht.
    pose proof (tick_end_time SAFE_DISTANCE CROSSINGS step s) as He.
    pose proof (tick_stdout SAFE_DISTANCE CROSSINGS step s) as Ho.
    rewrite T in Ht, He, Ho. simpl in Ht, He, Ho.
    now rewrite Ht, He, Ho, app_nil_r.
Qed.

Lemma Loop_clocks s l r :
  0 < step -> Loop s l r ->
  Datetime.MIN <= current_time s -> end_time s <= Datetime.MAX ->
  l = clock_values (current_time s) step (List.length l) /\
  (forall k : nat,
     (k < List.length l)%nat <->
     current_time s + Z.of_nat k * step <= end_time s) /\
  (fst r = Ok tt -> end_time s < current_time (snd r)) /\
  (end_time s + step <= Datetime.MAX -> fst r = Ok tt).
Proof.
  intros Hstep H.
  induction H as [s Hgt|s s' u l r Hle T _ IH|s s' e Hle T];
    intros Hmin Hmax; simpl.
  - repeat split; auto; try lia; intros Hk; nia.
  - pose proof (tick_ok _ _ _ _ _ _ T) as [Hc Hin].
    pose proof (tick_end_time SAFE_DISTANCE CROSSINGS step s) as He.
    rewrite T in He. simpl in He.
    rewrite Hc, He in IH.
    destruct IH as [IH1 [IH2 [IH3 IH4]]]; try lia.
    repeat split; auto.
    + now rewrite <- IH1.
    + intros Hk. destruct k as [|k]; [lia|].
      apply PeanoNat.lt_S_n in Hk. apply IH2 in Hk. lia.
    + intros Hk. destruct k as [|k]; [lia|].
      apply -> PeanoNat.Nat.succ_lt_mono. apply IH2. lia.
  - pose proof (tick_raise _ _ _ _ _ _ T) as [He [Hc Hout]].
    repeat split; auto; try discriminate; try lia.
    intros Hk. destruct k as [|k]; [lia|]. nia.
Qed.


Lemma Loop_clock_values s l r :
  Loop s l r -> l = clock_values (current_time s) step (List.length l).
Proof.
  induction 1 as [s Hgt|s s' u l r Hle T _ IH|s s' e Hle T]; simpl; auto.
  apply tick_ok in T. destruct T as [Hc _]. rewrite Hc in IH.
  now rewrite <- IH.
Qed.

Lemma clock_values_nth start n : forall k,
  (k < n)%nat ->
  nth_error (clock_values start step n) k = Some (start + Z.of_nat k * step).
Proof.
  revert start. induction n as [|n IH]; intros start k Hk; [lia|].
  destruct k as [|k]; cbn [clock_values nth_error].
  - f_equal. lia.
  - rewrite IH by lia. f_equal. rewrite Nat2Z.inj_succ. lia.
Qed.

Lemma clock_values_lower start n c :
  0 < step -> In c (clock_values start step n) -> start <= c.
Proof.
  intros Hstep. revert start. induction n as [|n IH]; intros start; simpl.
  - intros [].
  - intros [H|H]; [lia|]. apply IH in H. lia.
Qed.

Lemma clock_values_sorted start n :
  0 < step -> StronglySorted Z.lt (clock_values start step n).
Proof.
  intros Hstep. revert start. induction n as [|n IH]; intros start; simpl.
  - constructor.
  - constructor; auto. apply Forall_forall. intros c Hc.
    apply clock_values_lower in Hc; auto. lia.
Qed.

End LoopTrace.

(** ** The library: parsing and rounding *)

Lemma is_digit_range c : Datetime.is_digit c = true -> 0 <= Datetime.digit c <= 9.
Proof.
  unfold Datetime.is_digit, Datetime.digit. intros H.
  apply andb_prop in H. destruct H as [H1 H2].
  apply Z.leb_le in H1, H2. lia.
Qed.

Lemma in_digits_range lo hi c :
  Datetime.in_digits lo hi c = true -> lo <= Datetime.digit c <= hi.
Proof.
  unfold Datetime.in_digits. intros H.
  apply andb_prop in H. destruct H as [H H2].
  apply andb_prop in H. destruct H as [_ H1].
  apply Z.leb_le in H1, H2. lia.
Qed.

Lemma match_H_range s h r : In (h, r) (Datetime.match_H s) -> 0 <= h <= 23.
Proof.
  unfold Datetime.match_H. intros H.
  apply in_app_or in H. destruct H as [H|H]; [|apply in_app_or in H; destruct H as [H|H]].
  - destruct s as [|c1 [|c2 s]]; try contradiction.
    destruct (_ && _) eqn:E; [|contradiction].
    destruct H as [H|[]].
    apply pair_equal_spec in H. destruct H as [H _]. rewrite <- H.
    apply andb_prop in E. destruct E as [_ E].
    apply in_digits_range in E. lia.
  - destruct s as [|c1 [|c2 s]]; try contradiction.
    destruct (_ && _) eqn:E; [|contradiction].
    destruct H as [H|[]].
    apply pair_equal_spec in H. destruct H as [H _]. rewrite <- H.
    apply andb_prop in E. destruct E as [E1 E2].
    apply in_digits_range in E1. apply is_digit_range in E2. lia.
  - destruct s as [|c1 s]; try contradiction.
    destruct (Datetime.is_digit c1) eqn:E; [|contradiction].
    destruct H as [H|[]].
    apply pair_equal_spec in H. destruct H as [H _]. rewrite <- H.
    apply is_digit_range in E. lia.
Qed.

Lemma match_M_range s m r : In (m, r) (Datetime.match_M s) -> 0 <= m <= 59.
Proof.
  unfold Datetime.match_M. intros H.
  apply in_app_or in H. destruct H as [H|H].
  - destruct s as [|c1 [|c2 s]]; try contradiction.
    destruct (_ && _) eqn:E; [|contradiction].
    destruct H as [H|[]].
    apply pair_equal_spec in H. destruct H as [H _]. rewrite <- H.
    apply andb_prop in E. destruct E as [E1 E2].
    apply in_digits_range in E1. apply is_digit_range in E2. lia.
  - destruct s as [|c1 s]; try contradiction.
    destruct (Datetime.is_digit c1) eqn:E; [|contradiction].
    destruct H as [H|[]].
    apply pair_equal_spec in H. destruct H as [H _]. rewrite <- H.
    apply is_digit_range in E. lia.
Qed.

(** A parsed time of day is a whole number of minutes of 1900-01-01. *)
Lemma strptime_HM_range s dep :
  Datetime.strptime_HM s = Ok dep ->
  exists h m, 0 <= h <= 23 /\ 0 <= m <= 59 /\
              dep = h * Datetime.US_PER_HOUR + m * Datetime.US_PER_MINUTE.
Proof.
  unfold Datetime.strptime_HM.
  destruct (Datetime.match_HM _) as [|[[h m] r] rest] eqn:E; [discriminate|].
  destruct r; [|discriminate]. intros H. inversion H. subst. clear H.
  assert (Hin : In (h, m, []) (Datetime.match_HM (list_ascii_of_string s)))
    by (rewrite E; now left).
  unfold Datetime.match_HM in Hin.
  apply in_flat_map in Hin. destruct Hin as [[h' r1] [Hh Hin]].
  apply in_flat_map in Hin. destruct Hin as [r2 [_ Hin]].
  apply in_map_iff in Hin. destruct Hin as [[m' r3] [Heq Hm]].
  simpl in Heq. inversion Heq. subst.
  apply match_H_range in Hh. apply match_M_range in Hm.
  exists h, m. auto.
Qed.

Lemma strptime_HM_in_day s dep :
  Datetime.strptime_HM s = Ok dep -> 0 <= dep < Datetime.US_PER_DAY.
Proof.
  intros H. apply strptime_HM_range in H.
  destruct H as [h [m [Hh [Hm Hd]]]].
  unfold Datetime.US_PER_HOUR, Datetime.US_PER_MINUTE, Datetime.US_PER_DAY in *.
  lia.
Qed.

Example strptime_HM_short : Datetime.strptime_HM "8:5" = Ok 29100000000.
Proof. reflexivity. Qed.

Example strptime_HM_24 : Datetime.strptime_HM "24:00" = Raise ValueError.
Proof. reflexivity. Qed.

Example strptime_HM_60 : Datetime.strptime_HM "7:60" = Raise ValueError.
Proof. reflexivity. Qed.

Example round_half_even_ties :
  map Datetime.round_half_even [1 # 2; 3 # 2; 5 # 2; -1 # 2; -3 # 2; 7 # 4]%Q
  = [0; 2; 2; 0; -2; 2].
Proof. reflexivity. Qed.





(** ** The setup *)

Lemma setup_train_inv d t :
  setup_train d = Ok t ->
  exists dep,
    Datetime.strptime_HM (Raw.departure d) = Ok dep /\
    ~ (Raw.speed d == 0)%Q /\
    let td := Datetime.round_half_even
                (Raw.distance d / Raw.speed d * inject_Z Datetime.US_PER_HOUR) in
    Datetime.td_in_range td = true /\ Datetime.in_range (dep + td) = true /\
    t = Train.mk (Raw.name d) (Raw.departure d) (Raw.speed d) (Raw.distance d)
          (Raw.cars d) (Raw.car_length d) dep (dep + td)
          (Raw.cars d * Raw.car_length d / 1000)%Q.
Proof.
  unfold setup_train, rbind.
  destruct (Datetime.strptime_HM _) as [dep|] eqn:P; [|discriminate].
  destruct (Qeq_bool (Raw.speed d) 0) eqn:Z; [discriminate|].
  unfold Datetime.timedelta_hours.
  destruct (Datetime.td_in_range _) eqn:R1; [|discriminate].
  unfold Datetime.add.
  destruct (Datetime.in_range _) eqn:R2; [|discriminate].
  intros H. inversion H. exists dep. repeat split; auto.
  intros E. apply Qeq_bool_iff in E. congruence.
Qed.

Lemma setup_train_accepted d : (exists t, setup_train d = Ok t) <-> accepted d.
Proof.
  split.
  - intros [t H]. apply setup_train_inv in H.
    destruct H as [dep [H1 [H2 [H3 [H4 _]]]]]. exists dep. auto.
  - intros [dep [H1 [H2 [H3 H4]]]].
    unfold setup_train, rbind. rewrite H1.
    destruct (Qeq_bool (Raw.speed d) 0) eqn:Z;
      [apply Qeq_bool_iff in Z; contradiction|].
    unfold Datetime.timedelta_hours. rewrite H3.
    unfold Datetime.add. rewrite H4. eauto.
Qed.


Lemma setup_trains_Forall2 ds : forall ts,
  setup_trains ds = Ok ts -> Forall2 (fun d t => setup_train d = Ok t) ds ts.
Proof.
  induction ds as [|d ds IH]; simpl; intros ts H.
  - inversion H. constructor.
  - unfold rbind in H.
    destruct (setup_train d) as [t|] eqn:E; [|discriminate].
    destruct (setup_trains ds) as [ts'|]; [|discriminate].
    inversion H. constructor; auto.
Qed.



Lemma setup_trains_length ds ts :
  setup_trains ds = Ok ts -> List.length ts = List.length ds.
Proof.
  intros H. apply setup_trains_Forall2 in H.
  symmetry. eapply Forall2_length; eauto.
Qed.

Lemma fold_left_min r : forall x,
  In (fold_left Z.min r x) (x :: r) /\
  Forall (fun y => fold_left Z.min r x <= y) (x :: r).
Proof.
  induction r as [|y r IH]; intros x; simpl.
  - split; auto. constructor; [lia|constructor].
  - destruct (IH (Z.min x y)) as [Hin Hall].
    remember (fold_left Z.min r (Z.min x y)) as m.
    inversion Hall as [|? ? Hm Hr]. split.
    + destruct Hin as [Hin|Hin]; auto.
      destruct (Z.min_spec x y) as [[_ E]|[_ E]];
        [left|right; left]; congruence.
    + constructor; [lia|]. constructor; [lia|auto].
Qed.

Lemma fold_left_max r : forall x,
  In (fold_left Z.max r x) (x :: r) /\
  Forall (fun y => y <= fold_left Z.max r x) (x :: r).
Proof.
  induction r as [|y r IH]; intros x; simpl.
  - split; auto. constructor; [lia|constructor].
  - destruct (IH (Z.max x y)) as [Hin Hall].
    remember (fold_left Z.max r (Z.max x y)) as m.
    inversion Hall as [|? ? Hm Hr]. split.
    + destruct Hin as [Hin|Hin]; auto.
      destruct (Z.max_spec x y) as [[_ E]|[_ E]];
        [right; left|left]; congruence.
    + constructor; [lia|]. constructor; [lia|auto].
Qed.

Lemma py_min_spec l m :
  py_min l = Ok m -> In m l /\ Forall (fun y => m <= y) l.
Proof.
  destruct l as [|x r]; [discriminate|]. simpl. intros H. inversion H.
  apply fold_left_min.
Qed.

Lemma py_max_spec l m :
  py_max l = Ok m -> In m l /\ Forall (fun y => y <= m) l.
Proof.
  destruct l as [|x r]; [discriminate|]. simpl. intros H. inversion H.
  apply fold_left_max.
Qed.

Lemma setup_inv ds s :
  setup ds = Ok s ->
  setup_trains ds = Ok (trains s) /\
  py_min (map Train.departure_time (trains s)) = Ok (current_time s) /\
  py_max (map Train.arrival_time (trains s)) = Ok (end_time s) /\
  positions s = [] /\ stdout s = [].
Proof.
  unfold setup, rbind.
  destruct (setup_trains ds) as [ts|]; [|discriminate].
  destruct (py_min _) as [a|] eqn:A; [|discriminate].
  destruct (py_max _) as [b|] eqn:B; [|discriminate].
  intros H. inversion H. simpl. auto.
Qed.



Lemma setup_train_bounds d t :
  setup_train d = Ok t ->
  0 <= Train.departure_time t < Datetime.US_PER_DAY /\
  Datetime.MIN <= Train.arrival_time t <= Datetime.MAX.
Proof.
  intros H. apply setup_train_inv in H.
  destruct H as [dep [P [_ [_ [R ->]]]]]. simpl.
  apply strptime_HM_in_day in P. split; auto.
  unfold Datetime.in_range in R. apply andb_prop in R.
  destruct R as [R1 R2]. apply Z.leb_le in R1, R2. auto.
Qed.

Lemma setup_trains_In ds ts t :
  setup_trains ds = Ok ts -> In t ts ->
  exists d, In d ds /\ setup_train d = Ok t.
Proof.
  intros H. apply setup_trains_Forall2 in H.
  induction H as [|d t' ds ts Hd _ IH]; simpl; [intros []|].
  intros [->|Hin]; eauto.
  destruct (IH Hin) as [d' [? ?]]. eauto.
Qed.

Lemma setup_bounds ds s :
  setup ds = Ok s ->
  Datetime.MIN <= current_time s /\ end_time s <= Datetime.MAX.
Proof.
  intros H. apply setup_inv in H. destruct H as [H1 [H2 [H3 _]]].
  apply py_min_spec in H2. apply py_max_spec in H3.
  destruct H2 as [H2 _]. destruct H3 as [H3 _].
  apply in_map_iff in H2. destruct H2 as [t2 [E2 I2]].
  apply in_map_iff in H3. destruct H3 as [t3 [E3 I3]].
  destruct (setup_trains_In _ _ _ H1 I2) as [d2 [_ S2]].
  destruct (setup_trains_In _ _ _ H1 I3) as [d3 [_ S3]].
  apply setup_train_bounds in S2, S3.
  unfold Datetime.MIN, Datetime.US_PER_DAY in *. lia.
Qed.

Lemma setup_the_trains : setup the_trains = Ok the_store.
Proof. vm_compute. reflexivity. Qed.


(** The script ends on every list of trains. *)
Lemma script_total SAFE_DISTANCE CROSSINGS ds :
  exists o, script SAFE_DISTANCE CROSSINGS ds = Some o.
Proof.
  unfold script. destruct (setup ds) as [s0|e]; [|eauto].
  change (Datetime.timedelta_minutes 1) with (@Ok Z 60000000).
  destruct (run_loop_total SAFE_DISTANCE CROSSINGS 60000000
              (snd (print Banner s0)) eq_refl) as [[[u|e] s] H];
    rewrite H; eauto.
Qed.

Example script_prints_four_warnings :
  option_map (fun o => (fst o, List.length (snd o)))
    (script the_SAFE_DISTANCE the_CROSSINGS the_trains)
  = Some (Ok tt, 6%nat).
Proof. vm_compute. reflexivity. Qed.

Lemma same_control_refl s : same_control s s.
Proof. unfold same_control. auto. Qed.

Lemma same_control_print s ln : same_control s (snd (print ln s)).
Proof. unfold same_control. simpl. auto. Qed.

(** The loop on the store of a successful setup, or on one that differs from
    it in [positions] and [stdout] only. *)
Lemma loop_after_setup
  (SAFE_DISTANCE : Q) (CROSSINGS : list Q) (step : Z) (ds : list Raw.t)
  (s0 s : store) :
  0 < step -> setup ds = Ok s0 -> same_control s0 s ->
  exists l r,
    run_loop SAFE_DISTANCE CROSSINGS step s = Some r /\
    Loop SAFE_DISTANCE CROSSINGS step s l r /\
    l = clock_values (current_time s) step (List.length l) /\
    (forall k : nat,
       (k < List.length l)%nat <->
       current_time s + Z.of_nat k * step <= end_time s) /\
    (fst r = Ok tt -> end_time s < current_time (snd r)) /\
    (end_time s + step <= Datetime.MAX -> fst r = Ok tt).
Proof.
  intros Hstep Hs [_ [Hc He]].
  pose proof (setup_bounds _ _ Hs) as [Hmin Hmax].
  rewrite Hc in Hmin. rewrite He in Hmax.
  destruct (run_loop_total SAFE_DISTANCE CROSSINGS step s Hstep) as [r Hr].
  destruct (while_loop_Loop _ _ _ _ _ _ Hr) as [l HL].
  pose proof (Loop_clocks _ _ _ _ _ _ Hstep HL Hmin Hmax) as [C1 [C2 [C3 C4]]].
  exists l, r. repeat split; auto; apply C2.
Qed.

(** * The claims *)

(** ** C8: arrival time *)




(** ** C2: what the setup refuses *)



(** ** C7: the clock *)

(** C7: the clock starts at the least departure time and the loop runs up
    to the greatest arrival time.  For a positive step the loop ends; the
    ticks it evaluates have the clock values [start], [start + step], ...,
    increasing, and they are exactly the values [start + k * step] that are
    at most [end]; when the loop ends without error the clock has passed
    [end], and it does so whenever [end + step] is still a [datetime].  The
    loop starts from the store [s0] of the setup or, as in the script, from
    one that has printed since. *)
Theorem clock_runs_from_first_departure_to_last_arrival
  (SAFE_DISTANCE : Q) (CROSSINGS : list Q) (step : Z) (ds : list Raw.t)
  (s0 s : store) :
  0 < step -> setup ds = Ok s0 -> same_control s0 s ->
  (In (current_time s) (map Train.departure_time (trains s)) /\
   Forall (fun t => current_time s <= Train.departure_time t) (trains s)) /\
  (In (end_time s) (map Train.arrival_time (trains s)) /\
   Forall (fun t => Train.arrival_time t <= end_time s) (trains s)) /\
  exists l r,
    run_loop SAFE_DISTANCE CROSSINGS step s = Some r /\
    Loop SAFE_DISTANCE CROSSINGS step s l r /\
    l = clock_values (current_time s) step (List.length l) /\
    StronglySorted Z.lt l /\
    (forall k : nat,
       (k < List.length l)%nat <->
       current_time s + Z.of_nat k * step <= end_time s) /\
    (fst r = Ok tt -> end_time s < current_time (snd r)) /\
    (end_time s + step <= Datetime.MAX -> fst r = Ok tt).
Proof.
  intros Hstep Hs Hsame.
  pose proof (setup_inv _ _ Hs) as [_ [Hlo [Hhi _]]].
  pose proof Hsame as [Ht [Hc He]]. rewrite Ht, Hc in Hlo. rewrite Ht, He in Hhi.
  apply py_min_spec in Hlo. apply py_max_spec in Hhi.
  destruct Hlo as [Hlo1 Hlo2]. destruct Hhi as [Hhi1 Hhi2].
  rewrite Forall_map in Hlo2, Hhi2.
  split; [auto|]. split; [auto|].
  destruct (loop_after_setup SAFE_DISTANCE CROSSINGS step ds s0 s Hstep Hs Hsame)
    as [l [r [Hr [HL [C1 [C2 [C3 C4]]]]]]].
  exists l, r. repeat split; auto; try apply C2.
  rewrite C1. now apply clock_values_sorted.
Qed.

Lemma clock_runs_from_first_departure_to_last_arrival_witness :
  0 < the_step /\ setup the_trains = Ok the_store /\
  same_control the_store (snd (print Banner the_store)) /\
  In (current_time (snd (print Banner the_store)))
     (map Train.departure_time (trains (snd (print Banner the_store)))).
Proof.
  split; [reflexivity|]. split; [exact setup_the_trains|].
  split; [apply same_control_print|].
  apply (clock_runs_from_first_departure_to_last_arrival
           the_SAFE_DISTANCE the_CROSSINGS the_step the_trains the_store
           (snd (print Banner the_store))).
  - reflexivity.
  - exact setup_the_trains.
  - apply same_control_print.
Defined.

(** ** C5 and C10: the snapshot *)

Lemma dict_set_In n p k v d :
  In (n, p) (dict_set k v d) -> (n = k /\ p = v) \/ In (n, p) d.
Proof.
  induction d as [|[k' v'] d IH]; simpl.
  - intros [H|[]]. inversion H. auto.
  - destruct (String.eqb k k') eqn:E; simpl.
    + apply String.eqb_eq in E. subst k'.
      intros [H|H]; auto. inversion H. auto.
    + intros [H|H]; auto. destruct (IH H); auto.
Qed.

Lemma fold_snapshot_In now ts : forall d n p,
  In (n, p) (fold_left (snapshot_add now) ts d) ->
  In (n, p) d \/
  exists t, In t ts /\ active now t = true /\
            Train.name t = n /\ p = position_at now t.
Proof.
  induction ts as [|t ts IH]; simpl; intros d n p H; auto.
  apply IH in H. destruct H as [H|[t' [H1 H2]]]; [|eauto].
  unfold snapshot_add in H. destruct (active now t) eqn:A; auto.
  apply dict_set_In in H. destruct H as [[-> ->]|H]; eauto 7.
Qed.

Lemma fold_snapshot_keys now ts : forall d,
  NoDup (map fst d ++ map Train.name ts) ->
  map fst (fold_left (snapshot_add now) ts d) =
  map fst d ++ map Train.name (filter (active now) ts).
Proof.
  induction ts as [|t ts IH]; simpl; intros d Hnd.
  - now rewrite app_nil_r.
  - pose proof (NoDup_remove_1 _ _ _ Hnd) as Hnd1.
    pose proof (NoDup_remove_2 _ _ _ Hnd) as Hnot.
    unfold snapshot_add at 2. destruct (active now t) eqn:A; [|auto].
    rewrite IH; rewrite dict_set_keys.
    + destruct (existsb _ _) eqn:E.
      * apply existsb_eqb_In in E. exfalso. apply Hnot.
        apply in_or_app. auto.
      * simpl. now rewrite <- app_assoc.
    + destruct (existsb _ _) eqn:E.
      * apply existsb_eqb_In in E. exfalso. apply Hnot.
        apply in_or_app. auto.
      * rewrite <- app_assoc. exact Hnd.
Qed.

Lemma fold_snapshot_get_other now ts k : forall d,
  ~ In k (map Train.name ts) ->
  dict_get k (fold_left (snapshot_add now) ts d) = dict_get k d.
Proof.
  induction ts as [|t ts IH]; simpl; intros d Hk; auto.
  rewrite IH by tauto. unfold snapshot_add.
  destruct (active now t); auto.
  apply dict_get_set_other. tauto.
Qed.

Lemma fold_snapshot_get now ts : forall d t,
  NoDup (map Train.name ts) -> In t ts -> active now t = true ->
  dict_get (Train.name t) (fold_left (snapshot_add now) ts d) =
  Some (position_at now t).
Proof.
  induction ts as [|a ts IH]; simpl; intros d t Hnd Hin A; [contradiction|].
  inversion Hnd as [|? ? Hnot Hnd']; subst.
  destruct Hin as [->|Hin]; [|auto].
  rewrite fold_snapshot_get_other by auto.
  unfold snapshot_add. rewrite A. apply dict_get_set_same.
Qed.

Lemma position_at_hours now t :
  (position_at now t ==
   Train.speed t *
   (inject_Z (now - Train.departure_time t) / inject_Z Datetime.US_PER_HOUR))%Q.
Proof.
  unfold position_at, Datetime.total_seconds, Datetime.US_PER_SECOND,
    Datetime.US_PER_HOUR.
  field.
Qed.

Lemma the_names_NoDup : NoDup (map Train.name (trains the_store)).
Proof.
  simpl. repeat constructor; simpl; intuition discriminate.
Qed.

(** C5: at every tick the snapshot holds exactly the trains with
    [departure_time <= clock <= arrival_time], in the order of [trains], and
    the position of each is [speed * (clock - departure_time)], the
    difference taken in hours.  Names are unique, as the data model has
    them. *)
Theorem snapshot_holds_active_trains
  (SAFE_DISTANCE : Q) (CROSSINGS : list Q) (step : Z) (s : store) :
  NoDup (map Train.name (trains s)) ->
  let now := current_time s in
  let ps := positions (snd (tick SAFE_DISTANCE CROSSINGS step s)) in
  map fst ps =
  map Train.name
    (filter (fun t => (Train.departure_time t <=? now) && (now <=? Train.arrival_time t))
       (trains s)) /\
  (forall t, In t (trains s) ->
     Train.departure_time t <= now <= Train.arrival_time t ->
     exists p,
       dict_get (Train.name t) ps = Some p /\
       (p == Train.speed t *
             (inject_Z (now - Train.departure_time t)
              / inject_Z Datetime.US_PER_HOUR))%Q) /\
  (forall n p, In (n, p) ps ->
     exists t, In t (trains s) /\ Train.name t = n /\
               Train.departure_time t <= now <= Train.arrival_time t).
Proof.
  intros Hnd now ps. subst ps. rewrite tick_positions. fold now.
  split; [|split].
  - unfold snapshot. now rewrite fold_snapshot_keys.
  - intros t Hin [H1 H2]. exists (position_at now t). split.
    + apply fold_snapshot_get; auto. unfold active.
      apply andb_true_intro. split; now apply Z.leb_le.
    + apply position_at_hours.
  - intros n p H. apply fold_snapshot_In in H.
    destruct H as [[]|[t [Hin [A [Hn _]]]]].
    exists t. repeat split; auto; unfold active in A;
      apply andb_prop in A; destruct A as [A1 A2]; now apply Z.leb_le.
Qed.

Lemma snapshot_holds_active_trains_witness :
  NoDup (map Train.name (trains the_store)) /\
  map fst (positions (snd (tick the_SAFE_DISTANCE the_CROSSINGS the_step the_store)))
  = ["A"%string].
Proof.
  split; [exact the_names_NoDup|].
  apply (snapshot_holds_active_trains the_SAFE_DISTANCE the_CROSSINGS the_step
           the_store the_names_NoDup).
Defined.


Lemma active_bounds now t :
  active now t = true ->
  Train.departure_time t <= now <= Train.arrival_time t.
Proof.
  unfold active. intros A. apply andb_prop in A. destruct A as [A1 A2].
  apply Z.leb_le in A1, A2. auto.
Qed.



(** ** C3 and C6: the decision to warn *)

Lemma near_crossing_spec CROSSINGS p1 p2 :
  near_crossing CROSSINGS p1 p2 = true <->
  exists c, In c CROSSINGS /\
            (Qabs (p1 - c) < 1 # 100)%Q /\ (Qabs (p2 - c) < 1 # 100)%Q.
Proof.
  unfold near_crossing. rewrite existsb_exists.
  split; intros [c [Hc H]]; exists c; split; auto.
  - apply andb_prop in H. destruct H as [H1 H2].
    split; now apply Qltb_lt.
  - destruct H as [H1 H2]. apply andb_true_intro.
    split; now apply Qltb_lt.
Qed.

Lemma warns_spec SAFE_DISTANCE gap near :
  warns SAFE_DISTANCE gap near = true <->
  (gap * 1000 < SAFE_DISTANCE)%Q /\ near = false.
Proof.
  unfold warns. rewrite andb_true_iff, negb_true_iff, Qltb_lt. tauto.
Qed.

Lemma check_pair_decides SAFE_DISTANCE CROSSINGS s names i j t1 t2 gap p1 p2 :
  compute_gap names i j s = (Ok (t1, t2, gap), s) ->
  dict_get t1 (positions s) = Some p1 ->
  dict_get t2 (positions s) = Some p2 ->
  check_pair SAFE_DISTANCE CROSSINGS names i j s =
  (Ok tt,
   if warns SAFE_DISTANCE gap (near_crossing CROSSINGS p1 p2)
   then emit [Warning (mkWarning (current_time s) t1 t2 gap)] s
   else s).
Proof.
  intros Hg H1 H2. unfold check_pair, bind. rewrite Hg.
  unfold lookup. rewrite H1, H2. now destruct (warns _ _ _).
Qed.

Lemma pairs_In n i j : In (i, j) (pairs n) <-> (i < j < n)%nat.
Proof.
  unfold pairs. rewrite in_flat_map. split.
  - intros [i' [Hi Hj]]. apply in_map_iff in Hj.
    destruct Hj as [j' [E Hj]]. inversion E. subst.
    apply in_range_lt in Hj. lia.
  - intros H. exists i. split.
    + unfold range. apply in_seq. lia.
    + apply in_map. unfold range. apply in_seq. lia.
Qed.

Lemma pair_line_In SAFE_DISTANCE CROSSINGS ts ps now i j w :
  In (Warning w) (pair_line SAFE_DISTANCE CROSSINGS ts ps now i j) ->
  exists t1 p1 t2 p2 ti tj,
    nth_error ps i = Some (t1, p1) /\ nth_error ps j = Some (t2, p2) /\
    nth_error ts i = Some ti /\ nth_error ts j = Some tj /\
    w = mkWarning now t1 t2 (gap_of p1 p2 (Train.length ti) (Train.length tj)) /\
    warns SAFE_DISTANCE (gap_of p1 p2 (Train.length ti) (Train.length tj))
      (near_crossing CROSSINGS p1 p2) = true.
Proof.
  unfold pair_line.
  destruct (nth_error ps i) as [[t1 p1]|]; [|intros []].
  destruct (nth_error ps j) as [[t2 p2]|]; [|intros []].
  destruct (nth_error ts i) as [ti|]; [|intros []].
  destruct (nth_error ts j) as [tj|]; [|intros []].
  destruct (warns _ _ _) eqn:W; [|intros []].
  intros [H|[]]. inversion H. exists t1, p1, t2, p2, ti, tj. auto 7.
Qed.

Lemma tick_lines_In SAFE_DISTANCE CROSSINGS ts now ln :
  In ln (tick_lines SAFE_DISTANCE CROSSINGS ts now) ->
  exists i j,
    (i < j < List.length (snapshot now ts))%nat /\
    In ln (pair_line SAFE_DISTANCE CROSSINGS ts (snapshot now ts) now i j).
Proof.
  unfold tick_lines. rewrite in_flat_map.
  intros [[i j] [Hp H]]. apply pairs_In in Hp. exists i, j. auto.
Qed.

Lemma pair_line_is_warning SAFE_DISTANCE CROSSINGS ts ps now i j ln :
  In ln (pair_line SAFE_DISTANCE CROSSINGS ts ps now i j) ->
  exists w, ln = Warning w.
Proof.
  unfold pair_line.
  destruct (nth_error ps i) as [[t1 p1]|]; [|intros []].
  destruct (nth_error ps j) as [[t2 p2]|]; [|intros []].
  destruct (nth_error ts i) as [ti|]; [|intros []].
  destruct (nth_error ts j) as [tj|]; [|intros []].
  destruct (warns _ _ _); [|intros []].
  intros [H|[]]. eauto.
Qed.

(** C3: [near_crossing] holds exactly when some crossing is within 0.01 of
    both positions; a pair for which it holds prints no warning, whatever
    its gap; and every warning of a run is for a pair of trains of that
    tick's snapshot for which it does not hold. *)
Theorem no_warning_near_crossing (SAFE_DISTANCE : Q) (CROSSINGS : list Q)
  (step : Z) :
  (forall p1 p2,
     near_crossing CROSSINGS p1 p2 = true <->
     exists c, In c CROSSINGS /\
               (Qabs (p1 - c) < 1 # 100)%Q /\ (Qabs (p2 - c) < 1 # 100)%Q) /\
  (forall s names i j t1 t2 gap p1 p2,
     compute_gap names i j s = (Ok (t1, t2, gap), s) ->
     dict_get t1 (positions s) = Some p1 ->
     dict_get t2 (positions s) = Some p2 ->
     near_crossing CROSSINGS p1 p2 = true ->
     check_pair SAFE_DISTANCE CROSSINGS names i j s = (Ok tt, s)) /\
  (forall s l r w,
     Loop SAFE_DISTANCE CROSSINGS step s l r ->
     In (Warning w) (stdout (snd r)) ->
     In (Warning w) (stdout s) \/
     exists p1 p2,
       In (w_time w) l /\
       dict_get (w_t1 w) (snapshot (w_time w) (trains s)) = Some p1 /\
       dict_get (w_t2 w) (snapshot (w_time w) (trains s)) = Some p2 /\
       near_crossing CROSSINGS p1 p2 = false).
Proof.
  split; [apply near_crossing_spec|]. split.
  - intros s names i j t1 t2 gap p1 p2 Hg H1 H2 Hn.
    rewrite (check_pair_decides _ _ _ _ _ _ _ _ _ _ _ Hg H1 H2).
    unfold warns. rewrite Hn. now rewrite andb_false_r.
  - intros s l r w HL Hin.
    apply Loop_frame in HL. destruct HL as [_ [_ Ho]].
    rewrite Ho in Hin. apply in_app_or in Hin.
    destruct Hin as [Hin|Hin]; [now left|right].
    apply in_flat_map in Hin. destruct Hin as [c [Hc Hin]].
    apply tick_lines_In in Hin. destruct Hin as [i [j [_ Hin]]].
    apply pair_line_In in Hin.
    destruct Hin as [t1 [p1 [t2 [p2 [ti [tj [E1 [E2 [_ [_ [-> W]]]]]]]]]]].
    apply warns_spec in W. destruct W as [_ W]. simpl.
    exists p1, p2. repeat split; auto.
    + eapply dict_get_nth; eauto. apply snapshot_NoDup.
    + eapply dict_get_nth; eauto. apply snapshot_NoDup.
Qed.

Lemma app_one_neq {A : Type} (l : list A) (x : A) : l ++ [x] <> l.
Proof.
  intros H. apply (f_equal (@List.length A)) in H.
  rewrite length_app in H. simpl in H. lia.
Qed.

(** C6: for a pair that is not near a crossing, the warning is printed if
    and only if [gap * 1000], the gap in metres, is strictly less than
    [SAFE_DISTANCE]; a gap equal to the threshold prints nothing. *)
Theorem warning_threshold_is_strict (SAFE_DISTANCE : Q) (CROSSINGS : list Q)
  (s : store) (names : list string) (i j : nat) (t1 t2 : string)
  (gap p1 p2 : Q) :
  compute_gap names i j s = (Ok (t1, t2, gap), s) ->
  dict_get t1 (positions s) = Some p1 ->
  dict_get t2 (positions s) = Some p2 ->
  near_crossing CROSSINGS p1 p2 = false ->
  let s' := snd (check_pair SAFE_DISTANCE CROSSINGS names i j s) in
  (stdout s' = stdout s ++ [Warning (mkWarning (current_time s) t1 t2 gap)]
   <-> (gap * 1000 < SAFE_DISTANCE)%Q) /\
  ((SAFE_DISTANCE <= gap * 1000)%Q -> s' = s) /\
  ((gap * 1000 == SAFE_DISTANCE)%Q -> stdout s' = stdout s).
Proof.
  intros Hg H1 H2 Hn s'. subst s'.
  rewrite (check_pair_decides _ _ _ _ _ _ _ _ _ _ _ Hg H1 H2).
  unfold warns. rewrite Hn. simpl. rewrite andb_true_r.
  destruct (Qltb (gap * 1000) SAFE_DISTANCE) eqn:C.
  - apply Qltb_lt in C. simpl. split; [tauto|]. split.
    + intros H. exfalso. apply (Qlt_not_le _ _ C H).
    + intros E. exfalso. rewrite E in C. apply (Qlt_irrefl _ C).
  - apply Qltb_ge in C. split; [|auto]. split.
    + intros H. symmetry in H. now apply app_one_neq in H.
    + intros H. exfalso. apply (Qlt_not_le _ _ H C).
Qed.

Lemma warning_threshold_is_strict_witness :
  exists gap p1 p2,
    compute_gap ["A"; "B"; "C"; "D"]%string 1 2 store_0945
    = (Ok ("B"%string, "C"%string, gap), store_0945) /\
    dict_get "B" (positions store_0945) = Some p1 /\
    dict_get "C" (positions store_0945) = Some p2 /\
    near_crossing the_CROSSINGS p1 p2 = false /\
    (stdout (snd (check_pair the_SAFE_DISTANCE the_CROSSINGS
                    ["A"; "B"; "C"; "D"]%string 1 2 store_0945))
     = stdout store_0945
       ++ [Warning (mkWarning (current_time store_0945) "B" "C" gap)]
     <-> (gap * 1000 < the_SAFE_DISTANCE)%Q).
Proof.
  do 3 eexists.
  split; [vm_compute; reflexivity|].
  split; [vm_compute; reflexivity|].
  split; [vm_compute; reflexivity|].
  split; [vm_compute; reflexivity|].
  apply (warning_threshold_is_strict the_SAFE_DISTANCE the_CROSSINGS store_0945
           ["A"; "B"; "C"; "D"]%string 1 2 "B"%string "C"%string _ _ _
           eq_refl eq_refl eq_refl eq_refl).
Defined.

(** ** C4: determinism and order *)

Lemma StronglySorted_app {A : Type} (R : A -> A -> Prop) (l1 l2 : list A) :
  StronglySorted R l1 -> StronglySorted R l2 ->
  (forall x y, In x l1 -> In y l2 -> R x y) ->
  StronglySorted R (l1 ++ l2).
Proof.
  induction l1 as [|a l1 IH]; simpl; intros H1 H2 H; auto.
  inversion H1 as [|? ? Hs Hf]; subst. constructor.
  - apply IH; auto.
  - apply Forall_app. split.
    + exact Hf.
    + apply Forall_forall. intros y Hy. apply H; auto.
Qed.

Lemma row_sorted i m : forall b,
  StronglySorted pair_lt (map (fun j => (i, j)) (seq b m)).
Proof.
  induction m as [|m IH]; intros b; simpl; constructor; auto.
  apply Forall_forall. intros [i' j'] H. apply in_map_iff in H.
  destruct H as [j [E Hj]]. inversion E. subst. apply in_seq in Hj.
  right. simpl. lia.
Qed.

Lemma rows_sorted n k : forall a,
  StronglySorted pair_lt
    (flat_map (fun i => map (fun j => (i, j)) (range (i + 1) n)) (seq a k)).
Proof.
  induction k as [|k IH]; intros a; simpl; [constructor|].
  apply StronglySorted_app.
  - apply row_sorted.
  - apply IH.
  - intros [i1 j1] [i2 j2] H1 H2.
    apply in_map_iff in H1. destruct H1 as [j [E1 _]]. inversion E1. subst.
    apply in_flat_map in H2. destruct H2 as [i [Hi H2]].
    apply in_map_iff in H2. destruct H2 as [j' [E2 _]]. inversion E2. subst.
    apply in_seq in Hi. left. simpl. lia.
Qed.

Lemma pairs_sorted n : StronglySorted pair_lt (pairs n).
Proof. apply rows_sorted. Qed.

Lemma pair_line_names SAFE_DISTANCE CROSSINGS ts ps now i j ln :
  In ln (pair_line SAFE_DISTANCE CROSSINGS ts ps now i j) ->
  exists w, ln = Warning w /\ w_time w = now /\
            nth_error (map fst ps) i = Some (w_t1 w) /\
            nth_error (map fst ps) j = Some (w_t2 w).
Proof.
  intros H. destruct (pair_line_is_warning _ _ _ _ _ _ _ _ H) as [w ->].
  apply pair_line_In in H.
  destruct H as [t1 [p1 [t2 [p2 [ti [tj [E1 [E2 [_ [_ [-> _]]]]]]]]]]].
  eexists. split; [reflexivity|]. simpl.
  repeat split; [apply (map_nth_error fst _ _ E1)|apply (map_nth_error fst _ _ E2)].
Qed.

(** C4: a run is determined by the store it starts from: the loop relates
    a store to one list of ticks and one result, and the fuel given to
    [while_loop] does not change what it returns.  What a run prints is, tick
    after tick in increasing clock order, the lines of the pairs [(i, j)],
    [i < j], of the list of active trains in the order of [i], then [j]; each
    line is a warning that carries the clock of its tick and the names at
    [i] and [j]. *)
Theorem warnings_are_deterministic_and_ordered (SAFE_DISTANCE : Q)
  (CROSSINGS : list Q) (step : Z) (s : store) :
  (forall l1 r1 l2 r2,
     Loop SAFE_DISTANCE CROSSINGS step s l1 r1 ->
     Loop SAFE_DISTANCE CROSSINGS step s l2 r2 ->
     l1 = l2 /\ r1 = r2) /\
  (forall fuel1 fuel2 r1 r2,
     while_loop SAFE_DISTANCE CROSSINGS step fuel1 s = Some r1 ->
     while_loop SAFE_DISTANCE CROSSINGS step fuel2 s = Some r2 ->
     r1 = r2) /\
  (forall l r,
     0 < step -> Loop SAFE_DISTANCE CROSSINGS step s l r ->
     StronglySorted Z.lt l /\
     stdout (snd r) =
     stdout s ++
     flat_map (fun now =>
       flat_map (fun ij =>
         pair_line SAFE_DISTANCE CROSSINGS (trains s) (snapshot now (trains s))
           now (fst ij) (snd ij))
         (pairs (List.length (snapshot now (trains s))))) l) /\
  (forall n,
     StronglySorted pair_lt (pairs n) /\
     forall i j, In (i, j) (pairs n) <-> (i < j < n)%nat) /\
  (forall ts ps now i j ln,
     In ln (pair_line SAFE_DISTANCE CROSSINGS ts ps now i j) ->
     exists w, ln = Warning w /\ w_time w = now /\
               nth_error (map fst ps) i = Some (w_t1 w) /\
               nth_error (map fst ps) j = Some (w_t2 w)).
Proof.
  split; [|split; [|split; [|split]]].
  - intros l1 r1 l2 r2 H1 H2. eapply Loop_deterministic; eauto.
  - intros fuel1 fuel2 r1 r2 H1 H2.
    apply while_loop_Loop in H1, H2.
    destruct H1 as [l1 H1]. destruct H2 as [l2 H2].
    eapply Loop_deterministic; eauto.
  - intros l r Hstep HL. split.
    + rewrite (Loop_clock_values _ _ _ _ _ _ HL).
      now apply clock_values_sorted.
    + apply Loop_frame in HL. destruct HL as [_ [_ Ho]]. exact Ho.
  - intros n. split; [apply pairs_sorted|]. intros i j. apply pairs_In.
  - intros ts ps now i j ln. apply pair_line_names.
Qed.

(** ** C9: what the loop leaves alone *)

Lemma compute_gap_store names i j s : snd (compute_gap names i j s) = s.
Proof.
  unfold compute_gap, bind, index, lookup, get, ret, raise. cbv beta.
  destruct (nth_error names i); cbn; auto.
  destruct (nth_error names j); cbn; auto.
  destruct (dict_get _ _); cbn; auto.
  destruct (dict_get _ _); cbn; auto.
  destruct (nth_error (trains s) i); cbn; auto.
  destruct (nth_error (trains s) j); cbn; auto.
Qed.

Lemma check_pair_frame SAFE_DISTANCE CROSSINGS names i j s :
  exists o, snd (check_pair SAFE_DISTANCE CROSSINGS names i j s) = emit o s.
Proof.
  unfold check_pair, bind.
  pose proof (compute_gap_store names i j s) as Hs.
  destruct (compute_gap names i j s) as [[[[t1 t2] gap]|e] s1]; simpl in Hs;
    subst s1; [|exists []; now rewrite emit_nil].
  unfold lookup.
  destruct (dict_get t1 (positions s)); [|exists []; now rewrite emit_nil].
  destruct (dict_get t2 (positions s)); [|exists []; now rewrite emit_nil].
  destruct (warns _ _ _); [|exists []; now rewrite emit_nil].
  eexists. reflexivity.
Qed.

Lemma tick_control SAFE_DISTANCE CROSSINGS SAFE_DISTANCE' CROSSINGS' step s s' :
  same_control s s' ->
  fst (tick SAFE_DISTANCE CROSSINGS step s)
  = fst (tick SAFE_DISTANCE' CROSSINGS' step s') /\
  same_control (snd (tick SAFE_DISTANCE CROSSINGS step s))
    (snd (tick SAFE_DISTANCE' CROSSINGS' step s')).
Proof.
  intros [Ht [Hc He]]. rewrite !tick_spec. cbv zeta. rewrite Hc.
  unfold same_control.
  destruct (Datetime.add (current_time s') step); simpl; auto.
Qed.

Lemma Loop_control SAFE_DISTANCE CROSSINGS SAFE_DISTANCE' CROSSINGS' step s l r :
  Loop SAFE_DISTANCE CROSSINGS step s l r ->
  forall s' l' r',
    same_control s s' ->
    Loop SAFE_DISTANCE' CROSSINGS' step s' l' r' ->
    l = l' /\ fst r = fst r' /\ same_control (snd r) (snd r').
Proof.
  induction 1 as [s Hgt|s s1 u l r Hle T _ IH|s s1 e Hle T];
    intros s' l' r' Hsame H';
    pose proof (tick_control SAFE_DISTANCE CROSSINGS SAFE_DISTANCE' CROSSINGS'
                  step s s' Hsame) as [Hf Hs];
    pose proof Hsame as [_ [Hc He]];
    inversion H' as [? Hgt'|? s1' u' ? ? Hle' T' HL'|? s1' e' Hle' T']; subst;
    try lia;
    try (rewrite T, T' in Hf; simpl in Hf; try discriminate).
  - auto.
  - rewrite T, T' in Hs. simpl in Hs.
    destruct (IH _ _ _ Hs HL') as [-> [? ?]]. rewrite Hc. auto.
  - rewrite T, T' in Hs. simpl in Hs. rewrite Hc. auto.
Qed.

(** C9: the loop hands back the list of trains it was given, every field of
    every train as the setup left it, and the same [end_time]; a pair check,
    with or without a warning, changes nothing in the store but [stdout],
    which it may extend; and warnings have no part in the control of the
    loop: the ticks evaluated, the way the loop ends and the final clock are
    the same for any other threshold and crossings, so also for those that
    print no warning at all. *)
Theorem loop_changes_only_clock_and_output (SAFE_DISTANCE : Q)
  (CROSSINGS : list Q) (step : Z) :
  (forall s l r,
     Loop SAFE_DISTANCE CROSSINGS step s l r ->
     trains (snd r) = trains s /\ end_time (snd r) = end_time s) /\
  (forall fuel s r,
     while_loop SAFE_DISTANCE CROSSINGS step fuel s = Some r ->
     trains (snd r) = trains s /\ end_time (snd r) = end_time s) /\
  (forall s names i j,
     exists o,
       snd (check_pair SAFE_DISTANCE CROSSINGS names i j s) =
       mkStore (trains s) (current_time s) (end_time s) (positions s)
         (stdout s ++ o)) /\
  (forall s,
     trains (snd (tick SAFE_DISTANCE CROSSINGS step s)) = trains s /\
     (forall u s', tick SAFE_DISTANCE CROSSINGS step s = (Ok u, s') ->
                   current_time s' = current_time s + step)) /\
  (forall SAFE_DISTANCE' CROSSINGS' s l r l' r',
     Loop SAFE_DISTANCE CROSSINGS step s l r ->
     Loop SAFE_DISTANCE' CROSSINGS' step s l' r' ->
     l = l' /\ fst r = fst r' /\
     current_time (snd r) = current_time (snd r')).
Proof.
  split; [|split; [|split; [|split]]].
  - intros s l r HL. apply Loop_frame in HL. tauto.
  - intros fuel s r H. apply while_loop_Loop in H. destruct H as [l HL].
    apply Loop_frame in HL. tauto.
  - intros s names i j. apply check_pair_frame.
  - intros s. split; [apply tick_trains|].
    intros u s' T. now apply tick_ok in T.
  - intros SAFE' CROSSINGS' s l r l' r' H H'.
    destruct (Loop_control _ _ _ _ _ _ _ _ H _ _ _ (same_control_refl s) H')
      as [E1 [E2 [_ [E3 _]]]].
    auto.
Qed.

(** ** C1: the lengths in the gap *)

(** The run of the script's own trains evaluates the tick of 11:01. *)
Lemma tick_1101_is_evaluated :
  exists l r,
    Loop the_SAFE_DISTANCE the_CROSSINGS the_step the_store l r /\
    nth_error l 181 = Some 39660000000.
Proof.
  destruct (loop_after_setup
              the_SAFE_DISTANCE the_CROSSINGS the_step the_trains the_store
              the_store eq_refl setup_the_trains (same_control_refl the_store))
    as [l [r [_ [HL [Hl [Hk _]]]]]].
  exists l, r. split; [exact HL|].
  rewrite Hl. rewrite clock_values_nth; [reflexivity|].
  apply Hk. vm_compute. discriminate.
Qed.

(** C1 fails on the script's own trains.  At the tick of 11:01 train A has
    arrived and the active trains are B, C and D.  For the pair (B, C), at
    [i = 0] and [j = 1] of the list of active names, the gap is computed with
    the lengths of [trains[0]] and [trains[1]], which are A and B: it is
    |pos(B) - pos(C)| - (length(A) + length(B)), and not
    |pos(B) - pos(C)| - (length(B) + length(C)). *)
Lemma gap_takes_lengths_by_position_in_active_list :
  store_1101 = ticks the_SAFE_DISTANCE the_CROSSINGS the_step 182 the_store /\
  map fst (positions store_1101) = ["B"; "C"; "D"]%string /\
  exists gap pB pC tA tB tC,
    compute_gap ["B"; "C"; "D"]%string 0 1 store_1101
    = (Ok ("B"%string, "C"%string, gap), store_1101) /\
    dict_get "B" (positions store_1101) = Some pB /\
    dict_get "C" (positions store_1101) = Some pC /\
    trains store_1101 = tA :: tB :: tC :: skipn 3 (trains store_1101) /\
    Train.name tA = "A"%string /\ Train.name tB = "B"%string /\
    Train.name tC = "C"%string /\
    (gap == Qabs (pB - pC) - (Train.length tA + Train.length tB))%Q /\
    ~ (gap == Qabs (pB - pC) - (Train.length tB + Train.length tC))%Q.
Proof.
  split; [vm_compute; reflexivity|]. split; [reflexivity|].
  do 6 eexists.
  split; [vm_compute; reflexivity|].
  split; [vm_compute; reflexivity|].
  split; [vm_compute; reflexivity|].
  do 5 (split; [reflexivity|]).
  intros H. vm_compute in H. discriminate.
Qed.

(** * Further properties of the simulator *)

(** ** The setup loop *)



Lemma setup_trains_first_failure ds : forall e,
  setup_trains ds = Raise e ->
  exists pre d post,
    ds = pre ++ d :: post /\ Forall accepted pre /\ setup_train d = Raise e.
Proof.
  induction ds as [|d ds IH]; simpl; intros e; [discriminate|].
  unfold rbind. destruct (setup_train d) as [t|e0] eqn:E.
  - destruct (setup_trains ds) as [ts|e1]; [discriminate|].
    intros H. inversion H. subst e1.
    destruct (IH e eq_refl) as [pre [d' [post [-> [Hpre Hd']]]]].
    exists (d :: pre), d', post. repeat split; auto.
    constructor; auto. apply setup_train_accepted. eauto.
  - intros H. inversion H. subst e0. exists [], d, ds. auto.
Qed.

(** X2: when the setup fails on a list that is not empty, the error is that
    of the first train, in the order of the list, that the loop does not
    accept; the trains after it are not looked at.  For a train the
    departure string is read first: one that [strptime] refuses gives
    [ValueError] whatever the speed. *)
Theorem setup_reports_first_failure ds e :
  setup ds = Raise e -> ds <> [] ->
  (exists pre d post,
     ds = pre ++ d :: post /\ Forall accepted pre /\
     setup_train d = Raise e /\
     forall post', setup (pre ++ d :: post') = Raise e) /\
  (forall d,
     Datetime.strptime_HM (Raw.departure d) = Raise ValueError ->
     setup_train d = Raise ValueError).
Proof.
  intros H Hne. split.
  - unfold setup, rbind in H.
    destruct (setup_trains ds) as [ts|e0] eqn:E.
    + pose proof (setup_trains_length _ _ E) as L.
      destruct ts as [|t ts]; [destruct ds; [congruence|discriminate]|].
      simpl in H. discriminate.
    + inversion H. subst e0.
      destruct (setup_trains_first_failure _ _ E) as [pre [d [post [-> [Hpre Hd]]]]].
      exists pre, d, post. repeat split; auto.
      intros post'. unfold setup, rbind.
      assert (Hf : setup_trains (pre ++ d :: post') = Raise e).
      { clear E H Hne. induction pre as [|a pre IH]; simpl.
        - unfold rbind. now rewrite Hd.
        - inversion Hpre as [|? ? Ha Hpre']; subst.
          apply setup_train_accepted in Ha. destruct Ha as [t Ht].
          unfold rbind. rewrite Ht. now rewrite (IH Hpre'). }
      now rewrite Hf.
  - intros d P. unfold setup_train, rbind. now rewrite P.
Qed.

Lemma setup_reports_first_failure_witness :
  let ds := [Raw.mk "A" "08:00" 80 240 8 20; Raw.mk "B" "25:00" 0 240 10 25;
             Raw.mk "C" "09:00" 0 240 6 18] in
  setup ds = Raise ValueError /\ ds <> [] /\
  setup_train (Raw.mk "B" "25:00" 0 240 10 25) = Raise ValueError.
Proof.
  cbv zeta. split; [reflexivity|]. split; [discriminate|].
  apply (proj2 (setup_reports_first_failure
                  [Raw.mk "A" "08:00" 80 240 8 20;
                   Raw.mk "B" "25:00" 0 240 10 25;
                   Raw.mk "C" "09:00" 0 240 6 18] ValueError eq_refl
                  ltac:(discriminate))).
  reflexivity.
Defined.

(** ** Times of day *)

Lemma clock_values_In start step n c :
  In c (clock_values start step n) ->
  exists k : nat, (k < n)%nat /\ c = start + Z.of_nat k * step.
Proof.
  revert start. induction n as [|n IH]; intros start; simpl; [intros []|].
  intros [<-|H].
  - exists O. split; [lia|]. simpl. lia.
  - apply IH in H. destruct H as [k [Hk ->]].
    exists (S k). split; [lia|]. rewrite Nat2Z.inj_succ. lia.
Qed.

(** X3: after the setup every departure time, and so the first clock value,
    is a whole number of minutes of 1900-01-01; when the step is a whole
    number of minutes, as the script's is, the clock of every tick of the
    loop is one too, and so is the time that any train has travelled. *)
Theorem ticks_are_whole_minutes (SAFE_DISTANCE : Q) (CROSSINGS : list Q)
  (step : Z) (ds : list Raw.t) (s0 s : store) (l : list Z)
  (r : result unit * store) :
  setup ds = Ok s0 -> same_control s0 s ->
  step mod Datetime.US_PER_MINUTE = 0 ->
  Loop SAFE_DISTANCE CROSSINGS step s l r ->
  Forall (fun t =>
            0 <= Train.departure_time t < Datetime.US_PER_DAY /\
            Train.departure_time t mod Datetime.US_PER_MINUTE = 0) (trains s) /\
  Forall (fun now =>
            now mod Datetime.US_PER_MINUTE = 0 /\
            Forall (fun t =>
                      (now - Train.departure_time t) mod Datetime.US_PER_MINUTE = 0)
              (trains s)) l.
Proof.
  intros Hs Hsame Hstep HL.
  pose proof Hsame as [Ht [Hc _]].
  assert (Hdep : Forall (fun t =>
            0 <= Train.departure_time t < Datetime.US_PER_DAY /\
            Train.departure_time t mod Datetime.US_PER_MINUTE = 0) (trains s)).
  { rewrite <- Ht. apply Forall_forall. intros t Hin.
    pose proof (setup_inv _ _ Hs) as [Hts _].
    destruct (setup_trains_In _ _ _ Hts Hin) as [d [_ Hd]].
    apply setup_train_inv in Hd. destruct Hd as [dep [P [_ [_ [_ ->]]]]].
    simpl. split; [now apply strptime_HM_in_day in P|].
    apply strptime_HM_range in P. destruct P as [h [m [_ [_ ->]]]].
    unfold Datetime.US_PER_HOUR, Datetime.US_PER_MINUTE.
    replace (h * 3600000000 + m * 60000000) with ((h * 60 + m) * 60000000)
      by lia.
    apply Z.mod_mul. lia. }
  split; [exact Hdep|].
  assert (Hstart : current_time s mod Datetime.US_PER_MINUTE = 0).
  { pose proof (setup_inv _ _ Hs) as [_ [Hmin _]].
    apply py_min_spec in Hmin. destruct Hmin as [Hmin _].
    rewrite Ht, Hc in Hmin. apply in_map_iff in Hmin.
    destruct Hmin as [t [<- Hin]].
    rewrite Forall_forall in Hdep. now apply Hdep. }
  apply Loop_clock_values in HL. rewrite HL.
  apply Forall_forall. intros now Hnow.
  apply clock_values_In in Hnow. destruct Hnow as [k [_ ->]].
  assert (Hnow : (current_time s + Z.of_nat k * step)
                 mod Datetime.US_PER_MINUTE = 0).
  { apply Z.mod_divide in Hstart, Hstep;
      try (unfold Datetime.US_PER_MINUTE; lia).
    apply Z.mod_divide; [unfold Datetime.US_PER_MINUTE; lia|].
    apply Z.divide_add_r; auto. now apply Z.divide_mul_r. }
  split; [exact Hnow|].
  rewrite Forall_forall in Hdep |- *. intros t Hin.
  destruct (Hdep t Hin) as [_ Hd].
  apply Z.mod_divide in Hnow, Hd; try (unfold Datetime.US_PER_MINUTE; lia).
  apply Z.mod_divide; [unfold Datetime.US_PER_MINUTE; lia|].
  now apply Z.divide_sub_r.
Qed.

Lemma setup_fast_train : setup [fast_train] = Ok fast_store.
Proof. vm_compute. reflexivity. Qed.

Lemma fast_train_loop :
  Loop the_SAFE_DISTANCE the_CROSSINGS the_step fast_store [0; 60000000]
    (Ok tt, fast_store_2).
Proof.
  apply (Loop_tick the_SAFE_DISTANCE the_CROSSINGS the_step
           fast_store fast_store_1 tt [60000000] (Ok tt, fast_store_2));
    [simpl; lia|vm_compute; reflexivity|].
  apply (Loop_tick the_SAFE_DISTANCE the_CROSSINGS the_step
           fast_store_1 fast_store_2 tt [] (Ok tt, fast_store_2));
    [simpl; lia|vm_compute; reflexivity|].
  apply Loop_exit. simpl. lia.
Qed.

Lemma ticks_are_whole_minutes_witness :
  setup [fast_train] = Ok fast_store /\
  same_control fast_store fast_store /\
  the_step mod Datetime.US_PER_MINUTE = 0 /\
  Loop the_SAFE_DISTANCE the_CROSSINGS the_step fast_store [0; 60000000]
    (Ok tt, fast_store_2) /\
  Forall (fun t =>
            0 <= Train.departure_time t < Datetime.US_PER_DAY /\
            Train.departure_time t mod Datetime.US_PER_MINUTE = 0)
    (trains fast_store).
Proof.
  split; [exact setup_fast_train|]. split; [apply same_control_refl|].
  split; [reflexivity|]. split; [exact fast_train_loop|].
  apply (ticks_are_whole_minutes the_SAFE_DISTANCE the_CROSSINGS the_step
           [fast_train] fast_store fast_store [0; 60000000]
           (Ok tt, fast_store_2) setup_fast_train
           (same_control_refl fast_store) eq_refl fast_train_loop).
Defined.

Lemma reads_back_all :
  forallb (fun h => forallb (reads_back h) (seq 0 60)) (seq 0 24) = true.
Proof. vm_compute. reflexivity. Qed.

Lemma strptime_two_digits h m :
  0 <= h < 24 -> 0 <= m < 60 ->
  Datetime.strptime_HM
    (Datetime.two_digits h ++ ":" ++ Datetime.two_digits m)%string
  = Ok (h * Datetime.US_PER_HOUR + m * Datetime.US_PER_MINUTE).
Proof.
  intros Hh Hm.
  pose proof reads_back_all as H. rewrite forallb_forall in H.
  specialize (H (Z.to_nat h)). rewrite forallb_forall in H.
  specialize (H ltac:(apply in_seq; lia) (Z.to_nat m) ltac:(apply in_seq; lia)).
  unfold reads_back in H. rewrite !Z2Nat.id in H by lia.
  destruct (Datetime.strptime_HM _) as [v|]; [|discriminate].
  apply Z.eqb_eq in H. now subst.
Qed.

(** X4: [strptime] reads back what [strftime] prints with the same format:
    the hour and the minute of the time, the rest of it dropped.  A parsed
    departure time, printed and parsed again, is itself. *)
Theorem strptime_reads_strftime :
  (forall dt,
     Datetime.strptime_HM (Datetime.strftime_HM dt)
     = Ok (Datetime.hour dt * Datetime.US_PER_HOUR
           + Datetime.minute dt * Datetime.US_PER_MINUTE)) /\
  (forall s dep,
     Datetime.strptime_HM s = Ok dep ->
     Datetime.strptime_HM (Datetime.strftime_HM dep) = Ok dep).
Proof.
  assert (H1 : forall dt,
     Datetime.strptime_HM (Datetime.strftime_HM dt)
     = Ok (Datetime.hour dt * Datetime.US_PER_HOUR
           + Datetime.minute dt * Datetime.US_PER_MINUTE)).
  { intros dt. unfold Datetime.strftime_HM.
    apply strptime_two_digits; unfold Datetime.hour, Datetime.minute;
      apply Z.mod_pos_bound; lia. }
  split; [exact H1|].
  intros s dep P. rewrite H1. f_equal.
  apply strptime_HM_range in P. destruct P as [h [m [Hh [Hm ->]]]].
  unfold Datetime.hour, Datetime.minute, Datetime.US_PER_HOUR,
    Datetime.US_PER_MINUTE.
  replace (h * 3600000000 + m * 60000000)
    with (m * 60000000 + h * 3600000000) at 1 by lia.
  rewrite Z.div_add by lia.
  replace (h * 3600000000 + m * 60000000)
    with ((h * 60 + m) * 60000000) by lia.
  rewrite Z.div_mul by lia.
  rewrite (Z.div_small (m * 60000000)) by lia.
  rewrite (Z.mod_small (0 + h)) by lia.
  replace (h * 60 + m) with (m + h * 60) by lia.
  rewrite Z.mod_add by lia. rewrite (Z.mod_small m) by lia. lia.
Qed.

(** X5: the time in the message of a warning is the time of day of its
    tick; the day is lost: clock values a whole number of days apart print
    the same time. *)
Theorem strftime_forgets_the_day (dt days : Z) :
  Datetime.strftime_HM (dt + days * Datetime.US_PER_DAY)
  = Datetime.strftime_HM dt.
Proof.
  unfold Datetime.strftime_HM, Datetime.hour, Datetime.minute,
    Datetime.US_PER_DAY, Datetime.US_PER_HOUR, Datetime.US_PER_MINUTE.
  replace (dt + days * 86400000000)
    with (dt + (days * 24) * 3600000000) at 1 by lia.
  rewrite Z.div_add by lia.
  replace (dt + days * 86400000000)
    with (dt + (days * 1440) * 60000000) by lia.
  rewrite Z.div_add by lia.
  rewrite Z.mod_add by lia.
  replace (days * 1440) with ((days * 24) * 60) by lia.
  rewrite Z.mod_add by lia. reflexivity.
Qed.

(** ** The number of ticks and of pair checks *)

Lemma Loop_final_clock SAFE_DISTANCE CROSSINGS step s l r :
  Loop SAFE_DISTANCE CROSSINGS step s l r ->
  fst r = Ok tt ->
  current_time (snd r) = current_time s + Z.of_nat (List.length l) * step.
Proof.
  induction 1 as [s Hgt|s s' u l r Hle T _ IH|s s' e Hle T]; intros Hr.
  - simpl. lia.
  - rewrite (IH Hr). apply tick_ok in T. destruct T as [-> _].
    cbn [List.length]. rewrite Nat2Z.inj_succ. lia.
  - discriminate.
Qed.

(** X6: for a positive step the loop, started after the setup, evaluates
    [floor((end_time - start) / step) + 1] ticks, none when [end_time] is
    before the start; when it ends without error the clock stands that
    number of steps after the start. *)
Theorem tick_count (SAFE_DISTANCE : Q) (CROSSINGS : list Q) (step : Z)
  (ds : list Raw.t) (s0 s : store) (l : list Z) (r : result unit * store) :
  0 < step -> setup ds = Ok s0 -> same_control s0 s ->
  Loop SAFE_DISTANCE CROSSINGS step s l r ->
  List.length l = Z.to_nat ((end_time s - current_time s) / step + 1) /\
  (fst r = Ok tt ->
   current_time (snd r) = current_time s + Z.of_nat (List.length l) * step).
Proof.
  intros Hstep Hs [_ [Hc He]] HL.
  split; [|now apply Loop_final_clock with (1 := HL)].
  pose proof (setup_bounds _ _ Hs) as [Hmin Hmax].
  rewrite Hc in Hmin. rewrite He in Hmax.
  pose proof (Loop_clocks _ _ _ _ _ _ Hstep HL Hmin Hmax) as [_ [Hk _]].
  set (n := List.length l) in *.
  set (a := end_time s - current_time s).
  pose proof (Z.div_mod a step ltac:(lia)) as Hdm.
  pose proof (Z.mod_pos_bound a step Hstep) as Hr.
  assert (Hn : ~ current_time s + Z.of_nat n * step <= end_time s)
    by (intros H; apply Hk in H; lia).
  destruct n as [|n].
  - assert (a / step < 0) by (unfold a in *; nia). lia.
  - assert (Hp : current_time s + Z.of_nat n * step <= end_time s)
      by (apply Hk; lia).
    rewrite Nat2Z.inj_succ in Hn.
    assert (a / step = Z.of_nat n) by (unfold a in *; nia).
    lia.
Qed.

Lemma tick_count_witness :
  0 < the_step /\ setup [fast_train] = Ok fast_store /\
  same_control fast_store fast_store /\
  Loop the_SAFE_DISTANCE the_CROSSINGS the_step fast_store [0; 60000000]
    (Ok tt, fast_store_2) /\
  List.length [0; 60000000] =
  Z.to_nat ((end_time fast_store - current_time fast_store) / the_step + 1).
Proof.
  split; [reflexivity|]. split; [exact setup_fast_train|].
  split; [apply same_control_refl|]. split; [exact fast_train_loop|].
  apply (tick_count the_SAFE_DISTANCE the_CROSSINGS the_step [fast_train]
           fast_store fast_store [0; 60000000] (Ok tt, fast_store_2)
           eq_refl setup_fast_train (same_control_refl fast_store)
           fast_train_loop).
Defined.

Lemma fold_snapshot_length_active now ts : forall d,
  (List.length (fold_left (snapshot_add now) ts d)
   <= List.length d + List.length (filter (active now) ts))%nat.
Proof.
  induction ts as [|t ts IH]; intros d; simpl; [lia|].
  specialize (IH (snapshot_add now d t)).
  unfold snapshot_add in *. destruct (active now t); simpl; [|lia].
  pose proof (dict_set_length (Train.name t) (position_at now t) d). lia.
Qed.

Lemma pairs_small n : (n <= 1)%nat -> pairs n = [].
Proof.
  intros H. destruct n as [|[|n]]; try reflexivity. lia.
Qed.

(** X7: a tick at which fewer than two trains are active prints nothing,
    and a run with at most one train prints no warning at all. *)
Theorem no_warning_below_two_active (SAFE_DISTANCE : Q) (CROSSINGS : list Q)
  (step : Z) (s : store) :
  ((List.length
      (filter (fun t => ((Train.departure_time t <=? current_time s)
                         && (current_time s <=? Train.arrival_time t))%Z)
         (trains s)) <= 1)%nat ->
   stdout (snd (tick SAFE_DISTANCE CROSSINGS step s)) = stdout s) /\
  ((List.length (trains s) <= 1)%nat ->
   forall l r, Loop SAFE_DISTANCE CROSSINGS step s l r ->
               stdout (snd r) = stdout s).
Proof.
  assert (Hquiet : forall ts now,
            (List.length (filter (active now) ts) <= 1)%nat ->
            tick_lines SAFE_DISTANCE CROSSINGS ts now = []).
  { intros ts now H. unfold tick_lines.
    rewrite pairs_small; [reflexivity|].
    pose proof (fold_snapshot_length_active now ts []) as L.
    unfold snapshot. simpl in L. lia. }
  split.
  - intros H. rewrite tick_stdout, Hquiet; [apply app_nil_r|exact H].
  - intros H l r HL. apply Loop_frame in HL. destruct HL as [_ [_ ->]].
    rewrite <- app_nil_r. f_equal.
    induction l as [|now l IH]; simpl; auto.
    rewrite IH, Hquiet; auto.
    pose proof (filter_length_le (active now) (trains s)). lia.
Qed.

Lemma rows_length n k : forall a,
  (a + k = n)%nat ->
  (2 * List.length
         (flat_map (fun i => map (fun j => (i, j)) (range (i + 1) n)) (seq a k))
   = k * (k - 1))%nat.
Proof.
  induction k as [|k IH]; intros a Ha; [reflexivity|].
  cbn [seq flat_map]. rewrite length_app, length_map.
  specialize (IH (S a) ltac:(lia)).
  remember (List.length
              (flat_map (fun i => map (fun j => (i, j)) (range (i + 1) n))
                 (seq (S a) k))) as L.
  unfold range. rewrite length_seq.
  replace (n - (a + 1))%nat with k by lia.
  destruct k; simpl in *; nia.
Qed.

Lemma pairs_length n : (2 * List.length (pairs n) = n * (n - 1))%nat.
Proof.
  unfold pairs. change (range 0 n) with (seq 0 (n - 0)).
  rewrite Nat.sub_0_r. apply rows_length. lia.
Qed.


Lemma flat_map_length_le {A B : Type} (f : A -> list B) (l : list A) :
  (forall x, List.length (f x) <= 1)%nat ->
  (List.length (flat_map f l) <= List.length l)%nat.
Proof.
  intros H. induction l as [|x l IH]; simpl; [lia|].
  rewrite length_app. specialize (H x). lia.
Qed.


(** ** Names *)

Lemma fold_snapshot_get_inactive now ts k : forall d,
  (forall t, In t ts -> active now t = true -> Train.name t <> k) ->
  dict_get k (fold_left (snapshot_add now) ts d) = dict_get k d.
Proof.
  induction ts as [|t ts IH]; simpl; intros d H; auto.
  rewrite IH by (intros; apply H; auto). unfold snapshot_add.
  destruct (active now t) eqn:A; auto.
  apply dict_get_set_other. apply H; auto.
Qed.

(** X9: [positions] has one entry for each name, whatever the names of the
    trains: at most as many entries as there are active trains, and under a
    name that several active trains bear, the position of the last of them
    in the list. *)
Theorem positions_with_repeated_names (SAFE_DISTANCE : Q) (CROSSINGS : list Q)
  (step : Z) (s : store) (pre post : list Train.t) (t : Train.t) :
  trains s = pre ++ t :: post ->
  active (current_time s) t = true ->
  (forall t', In t' post -> active (current_time s) t' = true ->
              Train.name t' <> Train.name t) ->
  let ps := positions (snd (tick SAFE_DISTANCE CROSSINGS step s)) in
  NoDup (map fst ps) /\
  (List.length ps
   <= List.length (filter (active (current_time s)) (trains s)))%nat /\
  dict_get (Train.name t) ps = Some (position_at (current_time s) t).
Proof.
  intros Hts A Hlast ps. subst ps. rewrite tick_positions.
  split; [apply snapshot_NoDup|]. split.
  - apply (fold_snapshot_length_active (current_time s) (trains s) []).
  - unfold snapshot. rewrite Hts, fold_left_app. simpl.
    rewrite fold_snapshot_get_inactive by exact Hlast.
    unfold snapshot_add at 1. rewrite A. apply dict_get_set_same.
Qed.

Lemma positions_with_repeated_names_witness :
  let t1 := Train.mk "A" "08:00" 80 240 8 20 28800000000 39600000000 (160 # 1000) in
  let t2 := Train.mk "A" "08:00" 60 240 10 25 28800000000 43200000000 (250 # 1000) in
  let s := mkStore [t1; t2] 32400000000 43200000000 [] [] in
  trains s = [t1] ++ t2 :: [] /\
  active (current_time s) t2 = true /\
  dict_get "A"
    (positions (snd (tick the_SAFE_DISTANCE the_CROSSINGS the_step s)))
  = Some (position_at 32400000000 t2).
Proof.
  cbv zeta. split; [reflexivity|]. split; [reflexivity|].
  apply (positions_with_repeated_names the_SAFE_DISTANCE the_CROSSINGS the_step
           (mkStore
              [Train.mk "A" "08:00" 80 240 8 20 28800000000 39600000000 (160 # 1000);
               Train.mk "A" "08:00" 60 240 10 25 28800000000 43200000000 (250 # 1000)]
              32400000000 43200000000 [] [])
           [Train.mk "A" "08:00" 80 240 8 20 28800000000 39600000000 (160 # 1000)]
           []
           (Train.mk "A" "08:00" 60 240 10 25 28800000000 43200000000 (250 # 1000))
           eq_refl eq_refl).
  intros t' [].
Defined.

(** X10: while the active trains are the first [k] of [trains], and names
    are unique, the pair at [i] and [j] of the list of active names is the
    pair of [trains[i]] and [trains[j]], and its gap is computed from the
    positions and the lengths of these two trains. *)
Theorem gap_of_leading_trains (SAFE_DISTANCE : Q) (CROSSINGS : list Q)
  (step : Z) (s : store) (k i j : nat) (ti tj : Train.t) :
  NoDup (map Train.name (trains s)) ->
  filter (active (current_time s)) (trains s) = firstn k (trains s) ->
  (i < k)%nat -> (j < k)%nat ->
  nth_error (trains s) i = Some ti ->
  nth_error (trains s) j = Some tj ->
  let s' := snd (tick SAFE_DISTANCE CROSSINGS step s) in
  compute_gap (map fst (positions s')) i j s' =
  (Ok (Train.name ti, Train.name tj,
       gap_of (position_at (current_time s) ti) (position_at (current_time s) tj)
         (Train.length ti) (Train.length tj)),
   s').
Proof.
  intros Hnd Hk Hi Hj Eti Etj s'.
  assert (Hkeys : map fst (positions s')
                  = map Train.name (firstn k (trains s))).
  { subst s'. rewrite tick_positions. unfold snapshot.
    rewrite fold_snapshot_keys by exact Hnd. simpl. now rewrite Hk. }
  assert (Hact : forall i t, (i < k)%nat -> nth_error (trains s) i = Some t ->
                             active (current_time s) t = true).
  { intros i0 t Hi0 Et.
    assert (Hin : In t (firstn k (trains s))).
    { apply (nth_error_In _ i0). rewrite nth_error_firstn.
      destruct (Nat.ltb_spec i0 k); [exact Et|lia]. }
    rewrite <- Hk in Hin. apply filter_In in Hin. tauto. }
  assert (Hget : forall i t, (i < k)%nat -> nth_error (trains s) i = Some t ->
                 dict_get (Train.name t) (positions s')
                 = Some (position_at (current_time s) t)).
  { intros i0 t Hi0 Et. subst s'. rewrite tick_positions.
    apply fold_snapshot_get; eauto using nth_error_In. }
  assert (Hname : forall i t, (i < k)%nat -> nth_error (trains s) i = Some t ->
                  nth_error (map fst (positions s')) i = Some (Train.name t)).
  { intros i0 t Hi0 Et. rewrite Hkeys. apply map_nth_error.
    rewrite nth_error_firstn. destruct (Nat.ltb_spec i0 k); [exact Et|lia]. }
  apply compute_gap_spec; eauto.
  - subst s'. now rewrite tick_trains.
  - subst s'. now rewrite tick_trains.
Qed.

Lemma names_at_0945_NoDup : NoDup (map Train.name (trains store_at_0945)).
Proof.
  simpl. repeat constructor; simpl; intuition discriminate.
Qed.

Lemma gap_of_leading_trains_witness :
  exists tB tC,
    NoDup (map Train.name (trains store_at_0945)) /\
    filter (active (current_time store_at_0945)) (trains store_at_0945)
    = firstn 4 (trains store_at_0945) /\
    nth_error (trains store_at_0945) 1 = Some tB /\
    nth_error (trains store_at_0945) 2 = Some tC /\
    compute_gap
      (map fst (positions (snd (tick the_SAFE_DISTANCE the_CROSSINGS the_step
                                  store_at_0945))))
      1 2 (snd (tick the_SAFE_DISTANCE the_CROSSINGS the_step store_at_0945))
    = (Ok (Train.name tB, Train.name tC,
           gap_of (position_at (current_time store_at_0945) tB)
             (position_at (current_time store_at_0945) tC)
             (Train.length tB) (Train.length tC)),
       snd (tick the_SAFE_DISTANCE the_CROSSINGS the_step store_at_0945)).
Proof.
  do 2 eexists. split; [exact names_at_0945_NoDup|].
  split; [reflexivity|]. split; [reflexivity|]. split; [reflexivity|].
  apply (gap_of_leading_trains the_SAFE_DISTANCE the_CROSSINGS the_step
           store_at_0945 4 1 2 _ _ names_at_0945_NoDup eq_refl
           ltac:(lia) ltac:(lia) eq_refl eq_refl).
Defined.

(** ** What a warning says *)

Lemma snapshot_key_is_active now ts n :
  In n (map fst (snapshot now ts)) ->
  exists t, In t ts /\ Train.name t = n /\
            Train.departure_time t <= now <= Train.arrival_time t.
Proof.
  intros H. apply in_map_iff in H. destruct H as [[n' p] [<- H]].
  apply fold_snapshot_In in H. destruct H as [[]|[t [Hin [A [Hn _]]]]].
  exists t. auto using active_bounds.
Qed.

Lemma NoDup_nth_error_neq {A : Type} (l : list A) (i j : nat) (x y : A) :
  NoDup l -> (i < j)%nat ->
  nth_error l i = Some x -> nth_error l j = Some y -> x <> y.
Proof.
  intros Hnd Hij Hi Hj E. subst y.
  assert (i = j); [|lia].
  apply (proj1 (NoDup_nth_error l) Hnd).
  - apply nth_error_Some. congruence.
  - congruence.
Qed.

(** X11: every warning that the loop prints is about two trains of
    different names, both active at the tick whose clock value it carries,
    which is one of those evaluated, and its gap, in metres, is less than
    [SAFE_DISTANCE].  A train is never warned against itself, and never
    before it leaves or after it arrives. *)
Theorem warnings_are_about_two_active_trains (SAFE_DISTANCE : Q)
  (CROSSINGS : list Q) (step : Z) (s : store) (l : list Z)
  (r : result unit * store) (w : warning) :
  Loop SAFE_DISTANCE CROSSINGS step s l r ->
  In (Warning w) (stdout (snd r)) ->
  In (Warning w) (stdout s) \/
  (In (w_time w) l /\
   w_t1 w <> w_t2 w /\
   (exists t, In t (trains s) /\ Train.name t = w_t1 w /\
              Train.departure_time t <= w_time w <= Train.arrival_time t) /\
   (exists t, In t (trains s) /\ Train.name t = w_t2 w /\
              Train.departure_time t <= w_time w <= Train.arrival_time t) /\
   (w_gap w * 1000 < SAFE_DISTANCE)%Q).
Proof.
  intros HL Hin. apply Loop_frame in HL. destruct HL as [_ [_ Ho]].
  rewrite Ho in Hin. apply in_app_or in Hin.
  destruct Hin as [Hin|Hin]; [now left|right].
  apply in_flat_map in Hin. destruct Hin as [now [Hnow Hin]].
  apply tick_lines_In in Hin. destruct Hin as [i [j [Hij Hin]]].
  apply pair_line_In in Hin.
  destruct Hin as [t1 [p1 [t2 [p2 [ti [tj [E1 [E2 [_ [_ [-> W]]]]]]]]]]].
  apply warns_spec in W. destruct W as [W _]. simpl.
  pose proof (map_nth_error fst _ _ E1) as K1.
  pose proof (map_nth_error fst _ _ E2) as K2. simpl in K1, K2.
  split; [exact Hnow|]. split; [|split; [|split]].
  - apply (NoDup_nth_error_neq _ i j _ _ (snapshot_NoDup now (trains s)));
      auto; lia.
  - apply snapshot_key_is_active. eapply nth_error_In; eauto.
  - apply snapshot_key_is_active. eapply nth_error_In; eauto.
  - exact W.
Qed.

Lemma loop_only_0945 :
  Loop the_SAFE_DISTANCE the_CROSSINGS the_step store_only_0945
    [35100000000] (Ok tt, store_only_0945_after).
Proof.
  apply (Loop_tick the_SAFE_DISTANCE the_CROSSINGS the_step
           store_only_0945 store_only_0945_after tt []
           (Ok tt, store_only_0945_after));
    [simpl; lia|vm_compute; reflexivity|].
  apply Loop_exit. simpl. lia.
Qed.

Lemma warnings_are_about_two_active_trains_witness :
  let w := mkWarning 35100000000 "B" "C"
             (-4639680000000000000000000 # 12960000000000000000000000) in
  Loop the_SAFE_DISTANCE the_CROSSINGS the_step store_only_0945
    [35100000000] (Ok tt, store_only_0945_after) /\
  In (Warning w) (stdout store_only_0945_after) /\
  (In (Warning w) (stdout store_only_0945) \/
   (In (w_time w) [35100000000] /\
    w_t1 w <> w_t2 w /\
    (exists t, In t (trains store_only_0945) /\ Train.name t = w_t1 w /\
               Train.departure_time t <= w_time w <= Train.arrival_time t) /\
    (exists t, In t (trains store_only_0945) /\ Train.name t = w_t2 w /\
               Train.departure_time t <= w_time w <= Train.arrival_time t) /\
    (w_gap w * 1000 < the_SAFE_DISTANCE)%Q)).
Proof.
  cbv zeta. split; [exact loop_only_0945|].
  split; [left; reflexivity|].
  apply (warnings_are_about_two_active_trains the_SAFE_DISTANCE the_CROSSINGS
           the_step store_only_0945 [35100000000]
           (Ok tt, store_only_0945_after) _ loop_only_0945).
  left. reflexivity.
Defined.

(** ** Crossings and the order of a pair *)

(** X12: a warning is held back near a crossing only for trains less than
    0.02 apart: both are within 0.01 of the same crossing.  For trains
    farther apart, and for any trains when there is no crossing, the gap
    alone decides. *)
Theorem near_crossing_needs_close_trains (SAFE_DISTANCE : Q)
  (CROSSINGS : list Q) (p1 p2 gap : Q) :
  (near_crossing CROSSINGS p1 p2 = true -> (Qabs (p1 - p2) < 2 # 100)%Q) /\
  ((2 # 100 <= Qabs (p1 - p2))%Q ->
   warns SAFE_DISTANCE gap (near_crossing CROSSINGS p1 p2)
   = Qltb (gap * 1000) SAFE_DISTANCE) /\
  warns SAFE_DISTANCE gap (near_crossing [] p1 p2)
  = Qltb (gap * 1000) SAFE_DISTANCE.
Proof.
  assert (H : near_crossing CROSSINGS p1 p2 = true ->
              (Qabs (p1 - p2) < 2 # 100)%Q).
  { intros Hn. apply near_crossing_spec in Hn.
    destruct Hn as [c [_ [H1 H2]]].
    apply Qabs_Qlt_condition in H1, H2. apply Qabs_Qlt_condition.
    destruct H1, H2. split; lra. }
  split; [exact H|]. split.
  - intros Hfar. unfold warns.
    destruct (near_crossing CROSSINGS p1 p2) eqn:E.
    + exfalso. apply (Qlt_not_le _ _ (H eq_refl) Hfar).
    + apply andb_true_r.
  - unfold warns. simpl. apply andb_true_r.
Qed.

Lemma Qltb_compat x y z : (x == y)%Q -> Qltb x z = Qltb y z.
Proof.
  intros E. destruct (Qltb y z) eqn:C.
  - apply Qltb_lt. apply Qltb_lt in C. now rewrite E.
  - apply Qltb_ge. apply Qltb_ge in C. now rewrite E.
Qed.

Lemma near_crossing_sym CROSSINGS p1 p2 :
  near_crossing CROSSINGS p1 p2 = near_crossing CROSSINGS p2 p1.
Proof.
  unfold near_crossing. induction CROSSINGS as [|c l IH]; [reflexivity|].
  cbn [existsb]. rewrite IH. f_equal. apply andb_comm.
Qed.

(** X13: the decision to warn does not depend on which train of the pair
    comes first: swapping the two positions and the two lengths gives an
    equal gap, the same [near_crossing] and the same decision. *)
Theorem decision_ignores_order (SAFE_DISTANCE : Q) (CROSSINGS : list Q)
  (p1 p2 l1 l2 : Q) :
  (gap_of p1 p2 l1 l2 == gap_of p2 p1 l2 l1)%Q /\
  near_crossing CROSSINGS p1 p2 = near_crossing CROSSINGS p2 p1 /\
  warns SAFE_DISTANCE (gap_of p1 p2 l1 l2) (near_crossing CROSSINGS p1 p2)
  = warns SAFE_DISTANCE (gap_of p2 p1 l2 l1) (near_crossing CROSSINGS p2 p1).
Proof.
  assert (E : (gap_of p1 p2 l1 l2 == gap_of p2 p1 l2 l1)%Q).
  { unfold gap_of. rewrite (Qabs_Qminus p1 p2). ring. }
  split; [exact E|]. split; [apply near_crossing_sym|].
  unfold warns. rewrite (near_crossing_sym CROSSINGS p1 p2). f_equal.
  apply Qltb_compat. now rewrite E.
Qed.

(** ** Trains that arrive before they leave *)




(** ** What the script prints *)



(** ** Movement *)

(** X16: a train leaves from position 0 and, while it is active, advances
    from one tick to the next by its speed times the step, the step taken
    in hours. *)
Theorem position_advances_by_speed_times_step (SAFE_DISTANCE : Q)
  (CROSSINGS : list Q) (step : Z) (s s' : store) (u : unit) (t : Train.t) :
  NoDup (map Train.name (trains s)) -> In t (trains s) ->
  0 <= step ->
  Train.departure_time t <= current_time s ->
  current_time s + step <= Train.arrival_time t ->
  tick SAFE_DISTANCE CROSSINGS step s = (Ok u, s') ->
  exists p p',
    dict_get (Train.name t) (positions s') = Some p /\
    dict_get (Train.name t)
      (positions (snd (tick SAFE_DISTANCE CROSSINGS step s'))) = Some p' /\
    (p' == p + Train.speed t
               * (inject_Z step / inject_Z Datetime.US_PER_HOUR))%Q /\
    (current_time s = Train.departure_time t -> (p == 0)%Q).
Proof.
  intros Hnd Hin Hstep Hdep Harr T.
  pose proof (tick_positions SAFE_DISTANCE CROSSINGS step s) as P.
  pose proof (tick_trains SAFE_DISTANCE CROSSINGS step s) as Ht.
  rewrite T in P, Ht. simpl in P, Ht.
  pose proof (tick_ok _ _ _ _ _ _ T) as [Hc _].
  exists (position_at (current_time s) t),
         (position_at (current_time s + step) t).
  split; [|split; [|split]].
  - rewrite P. apply fold_snapshot_get; auto.
    unfold active. apply andb_true_intro. split; apply Z.leb_le; lia.
  - rewrite tick_positions, Ht, Hc. apply fold_snapshot_get; auto.
    unfold active. apply andb_true_intro. split; apply Z.leb_le; lia.
  - rewrite !position_at_hours.
    replace (current_time s + step - Train.departure_time t)
      with ((current_time s - Train.departure_time t) + step) by lia.
    rewrite inject_Z_plus. unfold Datetime.US_PER_HOUR. field.
  - intros E. rewrite position_at_hours, E, Z.sub_diag.
    unfold Datetime.US_PER_HOUR. field.
Qed.

Lemma position_advances_by_speed_times_step_witness :
  exists t p p',
    In t (trains the_store) /\
    tick the_SAFE_DISTANCE the_CROSSINGS the_step the_store
    = (Ok tt, ticks the_SAFE_DISTANCE the_CROSSINGS the_step 1 the_store) /\
    dict_get (Train.name t)
      (positions (ticks the_SAFE_DISTANCE the_CROSSINGS the_step 1 the_store))
    = Some p /\
    dict_get (Train.name t)
      (positions (ticks the_SAFE_DISTANCE the_CROSSINGS the_step 2 the_store))
    = Some p' /\
    (p' == p + Train.speed t
               * (inject_Z the_step / inject_Z Datetime.US_PER_HOUR))%Q.
Proof.
  exists (Train.mk "A" "08:00" 80 240 8 20 28800000000 39600000000 (160 # 1000)).
  destruct (position_advances_by_speed_times_step the_SAFE_DISTANCE
              the_CROSSINGS the_step the_store
              (ticks the_SAFE_DISTANCE the_CROSSINGS the_step 1 the_store) tt
              (Train.mk "A" "08:00" 80 240 8 20 28800000000 39600000000
                 (160 # 1000))
              the_names_NoDup (or_introl eq_refl) ltac:(discriminate)
              ltac:(discriminate) ltac:(discriminate) eq_refl)
    as [p [p' [H1 [H2 [H3 _]]]]].
  exists p, p'. split; [left; reflexivity|]. split; [reflexivity|].
  split; [exact H1|]. split; [exact H2|exact H3].
Defined.

(** * Properties of the converter *)

Module ConvertFacts.

Import Convert.

Lemma enumerate_nth {A : Type} (d : A) (l : list A) : forall a,
  combine (seq a (List.length l)) l
  = map (fun j => (j, nth (j - a) l d)) (seq a (List.length l)).
Proof.
  induction l as [|x l IH]; intros a; [reflexivity|].
  cbn [List.length seq combine map]. rewrite Nat.sub_diag. f_equal.
  rewrite IH. apply map_ext_in. intros j Hj. apply in_seq in Hj.
  replace (j - a)%nat with (S (j - S a)) by lia. reflexivity.
Qed.

Lemma flat_map_nil {A B : Type} (f : A -> list B) (l : list A) :
  (forall x, In x l -> f x = []) -> flat_map f l = [].
Proof.
  induction l as [|x l IH]; intros H; [reflexivity|]. simpl.
  rewrite H by now left. apply IH. intros; apply H; now right.
Qed.

Lemma flat_map_ext_In {A B : Type} (f g : A -> list B) (l : list A) :
  (forall x, In x l -> f x = g x) -> flat_map f l = flat_map g l.
Proof.
  induction l as [|x l IH]; intros H; [reflexivity|]. simpl.
  rewrite H by now left. f_equal. apply IH. intros; apply H; now right.
Qed.

Lemma later_indices {B : Type} (f : nat -> list B) (i n : nat) :
  (i < n)%nat ->
  flat_map (fun j => if (j <=? i)%nat then [] else f j) (seq 0 n)
  = flat_map f (range (i + 1) n).
Proof.
  intros Hi. unfold range.
  replace n with ((i + 1) + (n - (i + 1)))%nat at 1 by lia.
  rewrite seq_app, flat_map_app. rewrite flat_map_nil.
  - simpl. apply flat_map_ext_In. intros j Hj. apply in_seq in Hj.
    destruct (Nat.leb_spec j i); [lia|reflexivity].
  - intros j Hj. apply in_seq in Hj.
    destruct (Nat.leb_spec j i); [reflexivity|lia].
Qed.

Section Facts.

Variable crosses : geometry -> geometry -> bool.
Variable intersection : geometry -> geometry -> geometry.

Lemma find_crossings_pairs rail_gdf :
  find_crossings crosses intersection rail_gdf
  = flat_map (crossing_of crosses intersection rail_gdf)
      (pairs (List.length rail_gdf)).
Proof.
  unfold find_crossings, enumerate, pairs.
  rewrite (enumerate_nth Other rail_gdf 0).
  rewrite flat_map_map. rewrite flat_map_flat_map.
  change (range 0 (List.length rail_gdf))
    with (seq 0 (List.length rail_gdf - 0)).
  rewrite Nat.sub_0_r.
  apply flat_map_ext_In. intros i Hi. apply in_seq in Hi.
  rewrite flat_map_map. cbn [fst snd]. rewrite Nat.sub_0_r.
  rewrite flat_map_map.
  rewrite <- (later_indices
                (fun j => crossing_of crosses intersection rail_gdf (i, j))
                i (List.length rail_gdf))
    by lia.
  apply flat_map_ext_In. intros j Hj.
  cbn [fst snd]. rewrite Nat.sub_0_r.
  destruct (j <=? i)%nat; reflexivity.
Qed.

(** X17: the two loops test each pair of lines once, the line that comes
    first in [rail_gdf] against the one that comes later, and never a line
    against itself; [crossings] holds, in the order of the pairs, the
    intersection of every pair that crosses, so at most [n * (n - 1) / 2]
    of them for [n] lines. *)
Theorem crossings_follow_the_pairs (rail_gdf : list geometry) :
  let crossings := find_crossings crosses intersection rail_gdf in
  let n := List.length rail_gdf in
  crossings = flat_map (crossing_of crosses intersection rail_gdf) (pairs n) /\
  (forall g,
     In g crossings <->
     exists i j l1 l2,
       (i < j)%nat /\ nth_error rail_gdf i = Some l1 /\
       nth_error rail_gdf j = Some l2 /\
       crosses l1 l2 = true /\ g = intersection l1 l2) /\
  (2 * List.length crossings <= n * (n - 1))%nat.
Proof.
  cbv zeta. rewrite find_crossings_pairs.
  split; [reflexivity|]. split.
  - intros g. rewrite in_flat_map. split.
    + intros [[i j] [Hp Hg]]. apply pairs_In in Hp.
      unfold crossing_of in Hg. cbn [fst snd] in Hg.
      destruct (crosses _ _) eqn:C; [|contradiction].
      destruct Hg as [<-|[]].
      exists i, j, (nth i rail_gdf Other), (nth j rail_gdf Other).
      repeat split; auto; try lia; apply nth_error_nth'; lia.
    + intros [i [j [l1 [l2 [Hij [E1 [E2 [C ->]]]]]]]].
      exists (i, j). split.
      * apply pairs_In. split; [exact Hij|].
        apply nth_error_Some. congruence.
      * unfold crossing_of. cbn [fst snd].
        rewrite (nth_error_nth _ _ Other E1), (nth_error_nth _ _ Other E2).
        rewrite C. now left.
  - rewrite <- pairs_length.
    apply Nat.mul_le_mono_l. apply flat_map_length_le.
    intros ij. unfold crossing_of. destruct (crosses _ _); simpl; lia.
Qed.

Lemma draw_crossings_done minx miny maxx maxy cs : forall circles,
  draw_crossings minx miny maxx maxy cs = Done circles ->
  Forall2 (fun g c =>
             exists x y, g = Point x y /\
                         c = Circle (project minx miny maxx maxy (x, y)) 5)
    cs circles.
Proof.
  induction cs as [|g cs IH]; simpl; intros circles H.
  - inversion H. constructor.
  - destruct g as [x y| |]; simpl in H; try discriminate.
    destruct (draw_crossings minx miny maxx maxy cs) as [es|];
      [|discriminate].
    inversion H. constructor; eauto.
Qed.

Lemma draw_crossings_fails minx miny maxx maxy cs :
  draw_crossings minx miny maxx maxy cs = AttributeError <->
  exists g, In g cs /\ forall x y, g <> Point x y.
Proof.
  induction cs as [|g cs IH]; simpl.
  - split; [discriminate|]. intros [g [[] _]].
  - destruct g as [x y|coords|]; simpl.
    + destruct (draw_crossings minx miny maxx maxy cs) as [es|].
      * split; [discriminate|]. intros [g [[<-|Hin] Hg]].
        -- exfalso. now apply (Hg x y).
        -- assert (@Done (list element) es = AttributeError)
             by (apply IH; eauto).
           discriminate.
      * split; auto. intros _. destruct (proj1 IH eq_refl) as [g [Hin Hg]].
        eauto.
    + split; auto. intros _. exists (LineString coords).
      split; auto. discriminate.
    + split; auto. intros _. exists Other. split; auto. discriminate.
Qed.

(** X18: the drawing is not saved, and nothing is reported, when some
    intersection is not a single point: reading its [x] raises
    [AttributeError].  Otherwise the drawing holds a polyline for every
    [LineString] of [rail_gdf], in order, and none for the geometries of
    other kinds, then a circle of radius 5 at the projection of every
    crossing; the number reported is the number of circles. *)
Theorem convert_outcome (minx miny maxx maxy : Q) (rail_gdf : list geometry) :
  let crossings := find_crossings crosses intersection rail_gdf in
  (convert crosses intersection minx miny maxx maxy rail_gdf = AttributeError
   <-> exists g, In g crossings /\ forall x y, g <> Point x y) /\
  (forall els n,
     convert crosses intersection minx miny maxx maxy rail_gdf = Done (els, n) ->
     n = List.length crossings /\
     exists circles,
       els = draw_lines minx miny maxx maxy rail_gdf ++ circles /\
       List.length circles = n /\
       Forall2 (fun g c =>
                  exists x y, g = Point x y /\
                              c = Circle (project minx miny maxx maxy (x, y)) 5)
         crossings circles) /\
  List.length (draw_lines minx miny maxx maxy rail_gdf)
  = List.length
      (filter (fun g => match g with LineString _ => true | _ => false end)
         rail_gdf).
Proof.
  cbv zeta. split; [|split].
  - rewrite <- (draw_crossings_fails minx miny maxx maxy
                    (find_crossings crosses intersection rail_gdf)).
    unfold convert.
    destruct (draw_crossings minx miny maxx maxy _); split; intros H;
      try discriminate H; reflexivity.
  - intros els n H. unfold convert in H.
    destruct (draw_crossings minx miny maxx maxy _) as [circles|] eqn:E;
      [|discriminate].
    inversion H. split; [reflexivity|].
    apply draw_crossings_done in E.
    exists circles. repeat split; auto.
    symmetry. eapply Forall2_length; eauto.
  - unfold draw_lines. induction rail_gdf as [|g l IH]; [reflexivity|].
    simpl. rewrite length_app, IH. destruct g; reflexivity.
Qed.

End Facts.

(** X19: when the bounds have a positive extent in both directions,
    [project] sends the corner [(minx, miny)] to the lower left of the
    canvas, [(0, height)], and [(maxx, maxy)] to the upper right,
    [(width, 0)], and a point within the bounds to a point of the canvas;
    it keeps the order of the [x] and reverses that of the [y]. *)
Theorem project_maps_bounds_to_canvas (minx miny maxx maxy x y x' y' : Q) :
  (minx < maxx)%Q -> (miny < maxy)%Q ->
  let p := project minx miny maxx maxy in
  ((fst (p (minx, miny)) == 0)%Q /\ (snd (p (minx, miny)) == height)%Q) /\
  ((fst (p (maxx, maxy)) == width)%Q /\ (snd (p (maxx, maxy)) == 0)%Q) /\
  ((minx <= x <= maxx)%Q -> (0 <= fst (p (x, y)) <= width)%Q) /\
  ((miny <= y <= maxy)%Q -> (0 <= snd (p (x, y)) <= height)%Q) /\
  ((x <= x')%Q -> (fst (p (x, y)) <= fst (p (x', y)))%Q) /\
  ((y <= y')%Q -> (snd (p (x, y')) <= snd (p (x, y)))%Q).
Proof.
  intros Hx Hy. cbv zeta. unfold project, scale_x, scale_y, width, height.
  cbn [fst snd].
  assert (Dx : ~ (maxx - minx == 0)%Q) by (intros E; lra).
  assert (Dy : ~ (maxy - miny == 0)%Q) by (intros E; lra).
  assert (Rx : forall a, ((a - minx) * (2000 / (maxx - minx))
                          == 2000 * ((a - minx) / (maxx - minx)))%Q)
    by (intros; field; exact Dx).
  assert (Ry : forall a, ((a - miny) * (1200 / (maxy - miny))
                          == 1200 * ((a - miny) / (maxy - miny)))%Q)
    by (intros; field; exact Dy).
  assert (Bx : forall a b, (a <= b)%Q ->
                 ((a - minx) / (maxx - minx) <= (b - minx) / (maxx - minx))%Q).
  { intros a b H. apply Qle_shift_div_l; [lra|].
    assert (E : ((a - minx) / (maxx - minx) * (maxx - minx) == a - minx)%Q)
      by (field; exact Dx).
    rewrite E. lra. }
  assert (By : forall a b, (a <= b)%Q ->
                 ((a - miny) / (maxy - miny) <= (b - miny) / (maxy - miny))%Q).
  { intros a b H. apply Qle_shift_div_l; [lra|].
    assert (E : ((a - miny) / (maxy - miny) * (maxy - miny) == a - miny)%Q)
      by (field; exact Dy).
    rewrite E. lra. }
  assert (X0 : ((minx - minx) / (maxx - minx) == 0)%Q) by (field; exact Dx).
  assert (X1 : ((maxx - minx) / (maxx - minx) == 1)%Q) by (field; exact Dx).
  assert (Y0 : ((miny - miny) / (maxy - miny) == 0)%Q) by (field; exact Dy).
  assert (Y1 : ((maxy - miny) / (maxy - miny) == 1)%Q) by (field; exact Dy).
  rewrite !Rx, !Ry.
  split; [split; [rewrite X0|rewrite Y0]; reflexivity|].
  split; [split; [rewrite X1|rewrite Y1]; reflexivity|].
  split; [|split; [|split]].
  - intros [H0 H1]. apply Bx in H0, H1. rewrite X0 in H0. rewrite X1 in H1.
    split; lra.
  - intros [H0 H1]. apply By in H0, H1. rewrite Y0 in H0. rewrite Y1 in H1.
    split; lra.
  - intros H. apply Bx in H. lra.
  - intros H. apply By in H. lra.
Qed.

Lemma project_maps_bounds_to_canvas_witness :
  (0 < 10)%Q /\ (0 < 5)%Q /\
  (fst (project 0 0 10 5 (0, 0)) == 0)%Q.
Proof.
  split; [reflexivity|]. split; [reflexivity|].
  apply (project_maps_bounds_to_canvas 0 0 10 5 0 0 0 0);
    reflexivity.
Defined.

End ConvertFacts.
